(** * QAT conv + batch-norm fusion and the PT2E pipeline glue

    A shallow embedding of
      - [torch/ao/quantization/_pt2e/qat_utils.py]
      - [torch/ao/quantization/_quantize_pt2e.py]
    and the properties of their specification.

    Conventions.
      - An [fx.Node] is a mutable Python object.  Objects are named by
        [node_id]s and live in a [Store]; a field assignment is a store
        update.
      - Python exceptions are values of [Exn]; a computation that may raise
        returns a [Res].  Loops whose termination depends on the shape of
        the object graph take fuel and answer [OutOfFuel] when it is spent.
      - Collaborators that live outside the two files (the tracer, the
        subgraph rewriter, the prepare and convert stages) are fields of an
        interface class. *)

From Stdlib Require Import QArith_base Ascii.
From stdpp Require Import base option list gmap strings functions.

Open Scope string_scope.

(** ** Exceptions *)

Inductive Exn : Type :=
  | AssertionError (msg : string)
  | ValueError (msg : string)
  | IndexError
  | AttributeError
  | TypeError.

Inductive Res (A : Type) : Type :=
  | Ok (a : A)
  | Raise (e : Exn)
  | OutOfFuel.
Arguments Ok {A} a.
Arguments Raise {A} e.
Arguments OutOfFuel {A}.

#[global] Instance Res_ret : MRet Res := fun _ a => Ok a.
#[global] Instance Res_bind : MBind Res := fun _ _ f r =>
  match r with
  | Ok a => f a
  | Raise e => Raise e
  | OutOfFuel => OutOfFuel
  end.
#[global] Instance Res_fmap : FMap Res := fun _ _ f r =>
  match r with
  | Ok a => Ok (f a)
  | Raise e => Raise e
  | OutOfFuel => OutOfFuel
  end.

(** [assert cond, msg] *)
Definition py_assert (cond : bool) (msg : string) : Res unit :=
  if cond then Ok tt else Raise (AssertionError msg).

(** [l[i] = v] on a Python list: out of range raises. *)
Definition py_list_set {A} (l : list A) (i : nat) (v : A) : Res (list A) :=
  if decide (i < length l) then Ok (<[ i := v ]> l) else Raise IndexError.

(** ** The graph data model ([torch.fx]) *)

Module Fx.

Definition node_id := nat.

(** [Node.target] for the call_function nodes the code inspects. *)
Inductive Target : Type :=
  | aten_convolution_default            (* torch.ops.aten.convolution.default *)
  | aten_native_batch_norm_legit_default (* torch.ops.aten._native_batch_norm_legit.default *)
  | operator_getitem                    (* operator.getitem *)
  | other_target (qualname : string).

#[global] Instance Target_eq_dec : EqDecision Target.
Proof. solve_decision. Defined.

(** One positional argument of a node. *)
Inductive Arg : Type :=
  | ANode (n : node_id)
  | ANone
  | AInt (z : Z)
  | ABool (b : bool)
  | AInts (zs : list Z)
  | AFloat (decimal : string).

#[global] Instance Arg_eq_dec : EqDecision Arg.
Proof. solve_decision. Defined.

(** [isinstance(a, Node)] *)
Definition isinstance_Node (a : Arg) : bool :=
  match a with ANode _ => true | _ => false end.

(** [a is not None] *)
Definition is_not_None (a : Arg) : bool :=
  match a with ANone => false | _ => true end.

(** A Python type object, as far as the scope map needs one. *)
Inductive PyType : Type :=
  | NoneType
  | ModuleClass (qualname : string).

#[global] Instance PyType_eq_dec : EqDecision PyType.
Proof. solve_decision. Defined.

(** [nn_module_stack]: an insertion-ordered dict from a key to the pair
    (qualified path, module type). *)
Definition ModuleStack := list (string * (string * PyType)).

(** [Node.meta].  The entry under ["nn_module_stack"] is typed
    [Optional[Dict[str, Tuple[str, type]]]]; a missing key and the value
    [None] are both [None] here, as [meta.get(key, None)] returns [None]
    for either.  Every other entry sits in [annotations]. *)
Record Meta : Type := mkMeta {
  nn_module_stack : option ModuleStack;
  annotations : gmap string string
}.

Record Node : Type := mkNode {
  name : string;
  target : Target;
  args : list Arg;
  meta : Meta
}.

(** The object store: every id denotes a node object. *)
Definition Store := node_id -> Node.

Definition set_meta (st : Store) (n : node_id) (m : Meta) : Store :=
  <[ n := mkNode (name (st n)) (target (st n)) (args (st n)) m ]> st.

Definition set_args (st : Store) (n : node_id) (a : list Arg) : Store :=
  <[ n := mkNode (name (st n)) (target (st n)) a (meta (st n)) ]> st.

End Fx.

Import Fx.

(** ** [qat_utils.py] *)

Module QatUtils.

(** [InternalMatch]: [nodes_map] sends a pattern node (named by its
    [name]) to the matched node of the host graph, or to [None] when the
    pattern argument bound a [None] literal.  A Python dict iterates in
    insertion order, hence the list. *)
Record InternalMatch : Type := mkInternalMatch {
  anchors : list node_id;
  nodes_map : list (string * option node_id)
}.

(** The [for _, n in match.nodes_map.items()] loop of
    [_has_conv_bias_filter], with the [raise] that follows it. *)
Fixpoint has_conv_bias_scan (st : Store)
    (items : list (string * option node_id)) : Res bool :=
  match items with
  | [] => Raise (ValueError "Could not find conv node in matched conv + bn pattern")
  | (_, None) :: _ => Raise AttributeError       (* None.target *)
  | (_, Some n) :: rest =>
      if decide (target (st n) = aten_convolution_default) then
        match args (st n) !! 2%nat with
        | Some bias => Ok (is_not_None bias)
        | None => Raise IndexError                 (* n.args[2] *)
        end
      else has_conv_bias_scan st rest
  end.

Section Filters.
(** [original_graph] and [pattern_graph] are accepted and never read. *)
Context {Graph : Type}.

Definition _has_conv_bias_filter (st : Store) (m : InternalMatch)
    (original_graph pattern_graph : Graph) : Res bool :=
  has_conv_bias_scan st (nodes_map m).

Definition _no_conv_bias_filter (st : Store) (m : InternalMatch)
    (original_graph pattern_graph : Graph) : Res bool :=
  b ← _has_conv_bias_filter st m original_graph pattern_graph;
  mret (negb b).

End Filters.

(** *** Pattern library

    The three pattern functions are written once, over any implementation
    of the tensor operations they call.  Every operation may raise. *)

Class TensorOps (T : Type) : Type := {
  t_shape : T -> list Z;                       (* t.shape *)
  t_dtype : T -> string;                       (* t.dtype *)
  torch_sqrt : T -> Res T;
  t_add_scalar : T -> Q -> Res T;              (* t + float *)
  t_add : T -> T -> Res T;
  t_mul : T -> T -> Res T;
  t_div : T -> T -> Res T;
  t_reshape : T -> list Z -> Res T;
  torch_zeros_like : T -> string -> Res T;     (* zeros_like(t, dtype=...) *)
  F_conv2d : T -> T -> option T -> Res T;      (* conv2d(input, weight, bias) *)
  (* batch_norm(input, running_mean, running_var, weight, bias,
                training=..., eps=...); [None] is the default eps *)
  F_batch_norm : T -> T -> T -> T -> T -> bool -> option Q -> Res T
}.

(** The float literal [1e-5]. *)
Definition bn_eps : Q := 1 # 100000.

(** Shapes of [_conv2d_bn_pattern_example_inputs]; the values are random. *)
Definition _conv2d_bn_pattern_example_inputs : list (list Z) :=
  [ [1; 1; 3; 3]; [1; 1; 1; 1]; [1]; [1]; [1]; [1]; [1] ]%Z.

Section Patterns.
Context {T : Type} `{TensorOps T}.

Definition _conv2d_bn_pattern
    (x conv_weight conv_bias bn_weight bn_bias bn_running_mean bn_running_var : T)
    : Res T :=
  x ← F_conv2d x conv_weight (Some conv_bias);
  x ← F_batch_norm x bn_running_mean bn_running_var bn_weight bn_bias true None;
  mret x.

Definition _fused_qat_conv2d_bn_pattern
    (x conv_weight conv_bias bn_weight bn_bias bn_running_mean bn_running_var : T)
    : Res T :=
  v ← t_add_scalar bn_running_var bn_eps;
  running_std ← torch_sqrt v;
  scale_factor ← t_div bn_weight running_std;
  let weight_shape := replicate (length (t_shape conv_weight)) 1%Z in
  weight_shape ← py_list_set weight_shape 0 (-1)%Z;
  let bias_shape := replicate (length (t_shape conv_weight)) 1%Z in
  bias_shape ← py_list_set bias_shape 1 (-1)%Z;
  s ← t_reshape scale_factor weight_shape;
  scaled_weight ← t_mul conv_weight s;
  zero_bias ← torch_zeros_like conv_bias (t_dtype x);
  x ← F_conv2d x scaled_weight (Some zero_bias);
  s ← t_reshape scale_factor bias_shape;
  x ← t_div x s;
  b ← t_reshape conv_bias bias_shape;
  x ← t_add x b;
  x ← F_batch_norm x bn_running_mean bn_running_var bn_weight bn_bias true (Some bn_eps);
  mret x.

Definition _fused_qat_conv2d_bn_pattern_no_conv_bias
    (x conv_weight conv_bias bn_weight bn_bias bn_running_mean bn_running_var : T)
    : Res T :=
  v ← t_add_scalar bn_running_var bn_eps;
  running_std ← torch_sqrt v;
  scale_factor ← t_div bn_weight running_std;
  let weight_shape := replicate (length (t_shape conv_weight)) 1%Z in
  weight_shape ← py_list_set weight_shape 0 (-1)%Z;
  let bias_shape := replicate (length (t_shape conv_weight)) 1%Z in
  bias_shape ← py_list_set bias_shape 1 (-1)%Z;
  s ← t_reshape scale_factor weight_shape;
  scaled_weight ← t_mul conv_weight s;
  x ← F_conv2d x scaled_weight None;
  s ← t_reshape scale_factor bias_shape;
  x ← t_div x s;
  x ← F_batch_norm x bn_running_mean bn_running_var bn_weight bn_bias true (Some bn_eps);
  mret x.

End Patterns.

(** A pattern function as the tracer receives it: a callable that runs on
    whatever tensors the tracer feeds it. *)
Definition PatternFn : Type :=
  forall (T : Type), TensorOps T -> T -> T -> T -> T -> T -> T -> T -> Res T.

(** Symbolic tensors: running a pattern function on them records the
    operations it performs. *)
Inductive Sym : Type :=
  | SInput (name : string) (shape : list Z) (dtype : string)
  | SSqrt (a : Sym)
  | SAddScalar (a : Sym) (c : Q)
  | SAdd (a b : Sym)
  | SMul (a b : Sym)
  | SDiv (a b : Sym)
  | SReshape (a : Sym) (shape : list Z)
  | SZerosLike (a : Sym) (dtype : string)
  | SConv2d (input weight bias : Sym)
  | SConv2dNoBias (input weight : Sym)            (* bias=None *)
  | SBatchNorm (input running_mean running_var weight bias : Sym)
      (training : bool) (eps : option Q).

(** Shape and dtype are only asked of inputs by the pattern functions. *)
Definition sym_shape (a : Sym) : list Z :=
  match a with SInput _ s _ => s | SReshape _ s => s | _ => [] end.

Definition sym_dtype (a : Sym) : string :=
  match a with SInput _ _ d => d | SZerosLike _ d => d | _ => "float32" end.

#[global] Instance Sym_ops : TensorOps Sym := {|
  t_shape := sym_shape;
  t_dtype := sym_dtype;
  torch_sqrt a := Ok (SSqrt a);
  t_add_scalar a c := Ok (SAddScalar a c);
  t_add a b := Ok (SAdd a b);
  t_mul a b := Ok (SMul a b);
  t_div a b := Ok (SDiv a b);
  t_reshape a s := Ok (SReshape a s);
  torch_zeros_like a d := Ok (SZerosLike a d);
  F_conv2d x w b :=
    Ok (match b with Some b => SConv2d x w b | None => SConv2dNoBias x w end);
  F_batch_norm x rm rv w b tr eps := Ok (SBatchNorm x rm rv w b tr eps)
|}.

(** The call [pattern] makes when unpacking [example_inputs] as its arguments. *)
Definition call_pattern {T} `{TensorOps T} (pattern : PatternFn)
    (example_inputs : list T) : Res T :=
  match example_inputs with
  | [x; conv_weight; conv_bias; bn_weight; bn_bias; bn_running_mean; bn_running_var] =>
      pattern T _ x conv_weight conv_bias bn_weight bn_bias
        bn_running_mean bn_running_var
  | _ => Raise TypeError
  end.

(** Does the recorded computation read the input called [v]? *)
Fixpoint reads_input (v : string) (e : Sym) : bool :=
  match e with
  | SInput n _ _ => bool_decide (n = v)
  | SSqrt a | SAddScalar a _ | SReshape a _ | SZerosLike a _ => reads_input v a
  | SAdd a b | SMul a b | SDiv a b | SConv2dNoBias a b =>
      reads_input v a || reads_input v b
  | SConv2d x w b => reads_input v x || reads_input v w || reads_input v b
  | SBatchNorm x rm rv w b _ _ =>
      reads_input v x || reads_input v rm || reads_input v rv
      || reads_input v w || reads_input v b
  end.

(** Number of tensor additions ([x + y]) in the recorded computation. *)
Fixpoint count_adds (e : Sym) : nat :=
  match e with
  | SInput _ _ _ => 0
  | SSqrt a | SAddScalar a _ | SReshape a _ | SZerosLike a _ => count_adds a
  | SAdd a b => S (count_adds a + count_adds b)
  | SMul a b | SDiv a b | SConv2dNoBias a b => count_adds a + count_adds b
  | SConv2d x w b => count_adds x + count_adds w + count_adds b
  | SBatchNorm x rm rv w b _ _ =>
      count_adds x + count_adds rm + count_adds rv + count_adds w + count_adds b
  end.

(** The example inputs as symbolic tensors. *)
Definition sym_example_inputs : list Sym :=
  zip_with (fun n s => SInput n s "float32")
    ["x"; "conv_weight"; "conv_bias"; "bn_weight"; "bn_bias";
     "bn_running_mean"; "bn_running_var"]
    _conv2d_bn_pattern_example_inputs.

(** *** The fusion orchestrator *)

(** [ReplacedPatterns], as [replace_pattern_with_filters] returns them. *)
Record ReplacedPatterns : Type := mkReplacedPatterns {
  anchor : node_id;
  rp_nodes_map : list (string * option node_id);
  replacements : list node_id
}.

(** The [while replacement_conv_node is None or replacement_bn_node is None]
    loop, started at node [n] with the two variables as given. *)
Fixpoint climb (fuel : nat) (st : Store) (n : node_id)
    (replacement_conv_node replacement_bn_node : option node_id)
    : Res (node_id * node_id) :=
  match replacement_conv_node, replacement_bn_node with
  | Some c, Some b => Ok (c, b)
  | _, _ =>
      match fuel with
      | O => OutOfFuel
      | S fuel =>
          let replacement_conv_node :=
            if decide (target (st n) = aten_convolution_default)
            then Some n else replacement_conv_node in
          let replacement_bn_node :=
            if decide (target (st n) = aten_native_batch_norm_legit_default)
            then Some n else replacement_bn_node in
          match args (st n) !! 0%nat with
          | None => Raise IndexError                       (* n.args[0] *)
          | Some (ANode n') =>
              climb fuel st n' replacement_conv_node replacement_bn_node
          | Some _ => Raise (AssertionError "")
          end
      end
  end.

(** Lines 201-213: the two assertions and the walk.  Returns the
    replacement conv, bn and getitem nodes. *)
Definition find_replacement_nodes (fuel : nat) (st : Store)
    (r : ReplacedPatterns) : Res (node_id * node_id * node_id) :=
  _ ← py_assert (bool_decide (length (replacements r) = 1%nat))
        "expected only one replacement node";
  match replacements r with
  | [] => Raise IndexError
  | replacement_getitem_node :: _ =>
      _ ← py_assert
            (bool_decide (target (st replacement_getitem_node) = operator_getitem)) "";
      '(c, b) ← climb fuel st replacement_getitem_node None None;
      mret (c, b, replacement_getitem_node)
  end.

(** One iteration of [for match_pattern_node, original_node in
    r.nodes_map.items()]. *)
Definition copy_step
    (replacement_conv_node replacement_bn_node replacement_getitem_node : node_id)
    (st : Store) (item : string * option node_id) : Store :=
  match item.2 with
  | None => st                                             (* continue *)
  | Some original_node =>
      let st :=
        if decide (target (st original_node) = aten_convolution_default) then
          let st := set_meta st replacement_conv_node (meta (st original_node)) in
          set_args st replacement_conv_node
            (take 3 (args (st replacement_conv_node))
             ++ drop 3 (args (st original_node)))
        else st in
      let st :=
        if decide (target (st original_node) = aten_native_batch_norm_legit_default)
        then set_meta st replacement_bn_node (meta (st original_node))
        else st in
      if decide (target (st original_node) = operator_getitem)
      then set_meta st replacement_getitem_node (meta (st original_node))
      else st
  end.

(** The body of [for r in replacements_with_conv_bias +
    replacements_no_conv_bias]. *)
Definition post_process_one (fuel : nat) (st : Store) (r : ReplacedPatterns)
    : Res Store :=
  '(c, b, g) ← find_replacement_nodes fuel st r;
  mret (foldl (copy_step c b g) st (rp_nodes_map r)).

Fixpoint post_process (fuel : nat) (rs : list ReplacedPatterns) (st : Store)
    : Res Store :=
  match rs with
  | [] => Ok st
  | r :: rs => st ← post_process_one fuel st r; post_process fuel rs st
  end.

(** What [_fuse_conv_bn_qat] consumes from outside this file.  A
    [GraphModule] is a mutable object: operations on it take the store and
    the module and return both. *)
Class Substrate : Type := {
  GraphModule : Type;
  eliminate_dead_code : Store * GraphModule -> Res (Store * GraphModule);
  recompile : Store * GraphModule -> Res (Store * GraphModule);
  (* torch._dynamo.export(pattern, *example_inputs, aten_graph=True,
                          tracing_mode="real") *)
  dynamo_export : PatternFn -> list (list Z) -> Res GraphModule;
  pattern_eliminate_dead_code : GraphModule -> Res GraphModule;
  pattern_recompile : GraphModule -> Res GraphModule;
  (* replace_pattern_with_filters(m, pattern, replacement,
                                  match_filters=..., ignore_literals=...) *)
  replace_pattern_with_filters :
    Store * GraphModule -> GraphModule -> GraphModule ->
    list (Store -> InternalMatch -> GraphModule -> GraphModule -> Res bool) ->
    bool -> Res (Store * GraphModule * list ReplacedPatterns)
}.

Section Orchestrator.
Context `{Substrate}.

Definition _get_aten_graph_module (pattern : PatternFn)
    (example_inputs : list (list Z)) : Res GraphModule :=
  aten_pattern ← dynamo_export pattern example_inputs;
  aten_pattern ← pattern_eliminate_dead_code aten_pattern;
  aten_pattern ← pattern_recompile aten_pattern;
  mret aten_pattern.

Definition _fuse_conv_bn_qat (fuel : nat) (m : Store * GraphModule)
    : Res (Store * GraphModule) :=
  m ← eliminate_dead_code m;
  m ← recompile m;
  let example_inputs := _conv2d_bn_pattern_example_inputs in
  match_pattern ←
    _get_aten_graph_module (fun T _ => _conv2d_bn_pattern) example_inputs;
  replacement_pattern_with_conv_bias ←
    _get_aten_graph_module (fun T _ => _fused_qat_conv2d_bn_pattern) example_inputs;
  '(m, replacements_with_conv_bias) ←
    replace_pattern_with_filters m match_pattern
      replacement_pattern_with_conv_bias [_has_conv_bias_filter] true;
  m ← recompile m;
  replacement_pattern_no_conv_bias ←
    _get_aten_graph_module
      (fun T _ => _fused_qat_conv2d_bn_pattern_no_conv_bias) example_inputs;
  '(m, replacements_no_conv_bias) ←
    replace_pattern_with_filters m match_pattern
      replacement_pattern_no_conv_bias [_no_conv_bias_filter] true;
  m ← recompile m;
  st ← post_process fuel
         (replacements_with_conv_bias ++ replacements_no_conv_bias) m.1;
  mret (st, m.2).

End Orchestrator.

End QatUtils.

Import QatUtils.

(** ** [_quantize_pt2e.py] *)

Module QuantizePt2e.

(** [s.split(".")]: the pieces of [s] between dots; never empty. *)
Fixpoint split_dot (s : string) : list string :=
  match s with
  | EmptyString => [""]
  | String c s' =>
      if decide (c = "."%char) then "" :: split_dot s'
      else match split_dot s' with
           | piece :: pieces => String c piece :: pieces
           | [] => [String c ""]
           end
  end.

(** [l[-1]] on a list known to be non-empty; [d] stands for the
    unreachable empty case. *)
Definition py_last {A} (d : A) (l : list A) : A := List.last l d.

Definition Scope : Type := string * PyType.

(** The body of [for n in model.graph.nodes] up to the assignment into
    [node_name_to_scope]: the value of [current_scope] for node [n]. *)
Definition current_scope (n : Node) : Scope :=
  let nn_module_stack := nn_module_stack (meta n) in
  let current_scope := ("", NoneType) in
  match nn_module_stack with
  | Some ((_ :: _) as stack) =>                    (* if nn_module_stack: *)
      let bt := py_last ("", NoneType) (stack.*2) in
      (py_last "" (split_dot bt.1), bt.2)
  | _ => current_scope
  end.

(** The loop, from the empty dict. *)
Definition build_node_name_to_scope (nodes : list Node) : gmap string Scope :=
  foldl (fun node_name_to_scope n => <[ name n := current_scope n ]> node_name_to_scope)
        ∅ nodes.

(** A graph module of the pipeline: its graph's nodes in order. *)
Record GraphModule : Type := mkGraphModule {
  graph_nodes : list Node
}.

(** The stages [prepare_pt2e] and [convert_pt2e] import. *)
Class Stages : Type := {
  QConfigMapping : Type;
  BackendConfig : Type;
  ExampleInputs : Type;
  TorchModule : Type;
  (* ._pt2e.utils._fuse_conv_bn_, mutating the model in place *)
  _fuse_conv_bn_ : GraphModule -> Res GraphModule;
  (* .fx.prepare(model, qconfig_mapping, is_qat, node_name_to_scope,
                 example_inputs, backend_config=...) *)
  prepare : GraphModule -> QConfigMapping -> bool -> gmap string Scope ->
            ExampleInputs -> BackendConfig -> Res GraphModule;
  (* ._pt2e.utils._rearrange_weight_observer_for_decomposed_linear,
     mutating the model in place *)
  _rearrange_weight_observer_for_decomposed_linear : GraphModule -> Res GraphModule;
  (* .quantize_fx._convert_to_reference_decomposed_fx *)
  _convert_to_reference_decomposed_fx : GraphModule -> Res TorchModule
}.

Section Glue.
Context `{Stages}.

(** A call to another function of the package, with its arguments. *)
Inductive Call : Type :=
  | call_fuse_conv_bn_ (model : GraphModule)
  | call_fuse_conv_bn_qat (m : GraphModule)   (* ._pt2e.qat_utils._fuse_conv_bn_qat *)
  | call_prepare (model : GraphModule) (qconfig_mapping : QConfigMapping)
      (is_qat : bool) (node_name_to_scope : gmap string Scope)
      (example_inputs : ExampleInputs) (backend_config : BackendConfig)
  | call_rearrange_weight_observer_for_decomposed_linear (model : GraphModule)
  | call_convert_to_reference_decomposed_fx (model : GraphModule).

(** A computation that logs the calls it makes, in order, up to the first
    exception. *)
Definition Logged (A : Type) : Type := list Call * Res A.

Definition logged_ret {A} (a : A) : Logged A := ([], Ok a).

Definition logged_bind {A B} (m : Logged A) (f : A -> Logged B) : Logged B :=
  match m with
  | (log, Ok a) => let '(log', r) := f a in ((log ++ log')%list, r)
  | (log, Raise e) => (log, Raise e)
  | (log, OutOfFuel) => (log, OutOfFuel)
  end.

Definition invoke {A} (c : Call) (r : Res A) : Logged A := ([c], r).

Definition prepare_pt2e (model : GraphModule) (qconfig_mapping : QConfigMapping)
    (example_inputs : ExampleInputs) (backend_config : BackendConfig)
    : Logged GraphModule :=
  let node_name_to_scope := build_node_name_to_scope (graph_nodes model) in
  logged_bind (invoke (call_fuse_conv_bn_ model) (_fuse_conv_bn_ model)) (fun model =>
  logged_bind (invoke (call_prepare model qconfig_mapping false node_name_to_scope
                         example_inputs backend_config)
                 (prepare model qconfig_mapping false node_name_to_scope
                    example_inputs backend_config)) (fun model =>
  logged_bind (invoke (call_rearrange_weight_observer_for_decomposed_linear model)
                 (_rearrange_weight_observer_for_decomposed_linear model)) (fun model =>
  logged_ret model))).

Definition convert_pt2e (model : GraphModule) : Logged TorchModule :=
  invoke (call_convert_to_reference_decomposed_fx model)
    (_convert_to_reference_decomposed_fx model).

(** The calls of a log that are calls of the prepare stage, as their QAT
    flags. *)
Definition prepare_is_qat_flags (log : list Call) : list bool :=
  omap (fun c => match c with
                 | call_prepare _ _ is_qat _ _ _ => Some is_qat
                 | _ => None
                 end) log.

Definition is_call_fuse_conv_bn_qat (c : Call) : bool :=
  match c with call_fuse_conv_bn_qat _ => true | _ => false end.

Definition is_call_fuse_conv_bn_ (c : Call) : bool :=
  match c with call_fuse_conv_bn_ _ => true | _ => false end.

Definition is_call_prepare (c : Call) : bool :=
  match c with call_prepare _ _ _ _ _ _ => true | _ => false end.

End Glue.

End QuantizePt2e.

Import QuantizePt2e.

(** ** Concrete graphs *)

Module Scenarios.

Definition no_meta : Meta := mkMeta None ∅.

(** Metadata carrying a stack trace and a quantization annotation. *)
Definition meta_of (trace annotation : string) : Meta :=
  mkMeta None (<[ "stack_trace" := trace ]>
               (<[ "quantization_annotation" := annotation ]> ∅)).

Definition placeholder (n : string) : Node :=
  mkNode n (other_target n) [] no_meta.

Definition call (n target_name : string) (a : list Arg) : Node :=
  mkNode n (other_target target_name) a no_meta.

(** [aten.convolution.default(input, weight, bias, stride, padding,
    dilation, transposed, output_padding, groups)] *)
Definition conv_node (n : string) (input weight bias : Arg)
    (stride padding dilation : list Z) (groups : Z) (m : Meta) : Node :=
  mkNode n aten_convolution_default
    [input; weight; bias; AInts stride; AInts padding; AInts dilation;
     ABool false; AInts [0; 0]%Z; AInt groups] m.

(** [aten._native_batch_norm_legit.default(input, weight, bias,
    running_mean, running_var, training, momentum, eps)] *)
Definition bn_node (n : string) (input w b rm rv : node_id) (m : Meta) : Node :=
  mkNode n aten_native_batch_norm_legit_default
    [ANode input; ANode w; ANode b; ANode rm; ANode rv;
     ABool true; AFloat "0.1"; AFloat "1e-05"] m.

Definition getitem_node (n : string) (input : node_id) (m : Meta) : Node :=
  mkNode n operator_getitem [ANode input; AInt 0] m.

Definition store_of (objects : list Node) : Store :=
  fun i => default (placeholder "") (objects !! i).

(** *** A depthwise convolution feeding a pointwise convolution and a
    batch norm

    [x -> conv(groups=8, padding=1) -> conv(1x1, bias) -> bn -> getitem],
    after the with-bias replacement pass.  Objects 5, 10 and 11 are the
    matched conv, bn and getitem, erased from the graph; objects 12 to 24
    are the inserted replacement. *)
Definition separable_objects : list Node :=
  [ (* 0 *) placeholder "x";
    (* 1 *) placeholder "depthwise_weight";
    (* 2 *) conv_node "convolution_default" (ANode 0) (ANode 1) ANone
              [1; 1]%Z [1; 1]%Z [1; 1]%Z 8 (meta_of "depthwise" "depthwise-qspec");
    (* 3 *) placeholder "pointwise_weight";
    (* 4 *) placeholder "pointwise_bias";
    (* 5 *) conv_node "convolution_default_1" (ANode 2) (ANode 3) (ANode 4)
              [1; 1]%Z [0; 0]%Z [1; 1]%Z 1 (meta_of "pointwise" "pointwise-qspec");
    (* 6 *) placeholder "bn_weight";
    (* 7 *) placeholder "bn_bias";
    (* 8 *) placeholder "bn_running_mean";
    (* 9 *) placeholder "bn_running_var";
    (* 10 *) bn_node "_native_batch_norm_legit_default" 5 6 7 8 9 (meta_of "bn" "bn-qspec");
    (* 11 *) getitem_node "getitem" 10 (meta_of "bn output" "output-qspec");
    (* 12 *) call "add" "aten.add.Tensor" [ANode 9; AFloat "1e-05"];
    (* 13 *) call "sqrt" "aten.sqrt.default" [ANode 12];
    (* 14 *) call "div" "aten.div.Tensor" [ANode 6; ANode 13];
    (* 15 *) call "view" "aten.view.default" [ANode 14; AInts [-1; 1; 1; 1]%Z];
    (* 16 *) call "mul" "aten.mul.Tensor" [ANode 3; ANode 15];
    (* 17 *) call "zeros_like" "aten.zeros_like.default" [ANode 4];
    (* 18 *) conv_node "convolution_default_2" (ANode 2) (ANode 16) (ANode 17)
               [1; 1]%Z [0; 0]%Z [1; 1]%Z 1 no_meta;
    (* 19 *) call "view_1" "aten.view.default" [ANode 14; AInts [1; -1; 1; 1]%Z];
    (* 20 *) call "div_1" "aten.div.Tensor" [ANode 18; ANode 19];
    (* 21 *) call "view_2" "aten.view.default" [ANode 4; AInts [1; -1; 1; 1]%Z];
    (* 22 *) call "add_1" "aten.add.Tensor" [ANode 20; ANode 21];
    (* 23 *) bn_node "_native_batch_norm_legit_default_1" 22 6 7 8 9 no_meta;
    (* 24 *) getitem_node "getitem_1" 23 no_meta ].

Definition separable_store : Store := store_of separable_objects.

(** The match, in the order the matcher fills [nodes_map]: the anchor
    first, then each node's arguments, so the pattern's placeholders come
    after the pattern's operators. *)
Definition separable_replaced : ReplacedPatterns :=
  mkReplacedPatterns 11
    [ ("getitem", Some 11);
      ("_native_batch_norm_legit_default", Some 10);
      ("convolution_default", Some 5);
      ("arg0_1", Some 2);          (* x: the depthwise convolution *)
      ("arg1_1", Some 3);
      ("arg2_1", Some 4);
      ("arg3_1", Some 6);
      ("arg4_1", Some 7);
      ("arg5_1", Some 8);
      ("arg6_1", Some 9) ]
    [24].

(** *** A max-pool feeding a convolution without bias and a batch norm

    [x -> max_pool2d_with_indices -> getitem -> conv(bias=None) -> bn ->
    getitem], after the no-bias replacement pass.  Objects 4, 9 and 10 are
    the matched conv, bn and getitem; objects 11 to 20 the replacement. *)
Definition maxpool_objects : list Node :=
  [ (* 0 *) placeholder "x";
    (* 1 *) call "max_pool2d_with_indices" "aten.max_pool2d_with_indices.default"
              [ANode 0; AInts [2; 2]%Z];
    (* 2 *) getitem_node "getitem" 1 (meta_of "maxpool output" "maxpool-qspec");
    (* 3 *) placeholder "conv_weight";
    (* 4 *) conv_node "convolution_default" (ANode 2) (ANode 3) ANone
              [2; 2]%Z [1; 1]%Z [1; 1]%Z 1 (meta_of "conv" "conv-qspec");
    (* 5 *) placeholder "bn_weight";
    (* 6 *) placeholder "bn_bias";
    (* 7 *) placeholder "bn_running_mean";
    (* 8 *) placeholder "bn_running_var";
    (* 9 *) bn_node "_native_batch_norm_legit_default" 4 5 6 7 8 (meta_of "bn" "bn-qspec");
    (* 10 *) getitem_node "getitem_1" 9 (meta_of "bn output" "output-qspec");
    (* 11 *) call "add" "aten.add.Tensor" [ANode 8; AFloat "1e-05"];
    (* 12 *) call "sqrt" "aten.sqrt.default" [ANode 11];
    (* 13 *) call "div" "aten.div.Tensor" [ANode 5; ANode 12];
    (* 14 *) call "view" "aten.view.default" [ANode 13; AInts [-1; 1; 1; 1]%Z];
    (* 15 *) call "mul" "aten.mul.Tensor" [ANode 3; ANode 14];
    (* 16 *) conv_node "convolution_default_1" (ANode 2) (ANode 15) ANone
               [1; 1]%Z [0; 0]%Z [1; 1]%Z 1 no_meta;
    (* 17 *) call "view_1" "aten.view.default" [ANode 13; AInts [1; -1; 1; 1]%Z];
    (* 18 *) call "div_1" "aten.div.Tensor" [ANode 16; ANode 17];
    (* 19 *) bn_node "_native_batch_norm_legit_default_1" 18 5 6 7 8 no_meta;
    (* 20 *) getitem_node "getitem_2" 19 no_meta ].

Definition maxpool_store : Store := store_of maxpool_objects.

Definition maxpool_replaced : ReplacedPatterns :=
  mkReplacedPatterns 10
    [ ("getitem", Some 10);
      ("_native_batch_norm_legit_default", Some 9);
      ("convolution_default", Some 4);
      ("arg0_1", Some 2);          (* x: the max-pool's getitem *)
      ("arg1_1", Some 3);
      ("arg2_1", None);            (* conv_bias *)
      ("arg3_1", Some 5);
      ("arg4_1", Some 6);
      ("arg5_1", Some 7);
      ("arg6_1", Some 8) ]
    [20].



(** The stages that hand the model back unchanged. *)
Definition identity_stages : Stages := {|
  QConfigMapping := unit;
  BackendConfig := unit;
  ExampleInputs := unit;
  TorchModule := QuantizePt2e.GraphModule;
  _fuse_conv_bn_ model := Ok model;
  prepare model _ _ _ _ _ := Ok model;
  _rearrange_weight_observer_for_decomposed_linear model := Ok model;
  _convert_to_reference_decomposed_fx model := Ok model
|}.

(** Stages whose prepare stage rejects every model. *)
Definition rejecting_stages : Stages := {|
  QConfigMapping := unit;
  BackendConfig := unit;
  ExampleInputs := unit;
  TorchModule := QuantizePt2e.GraphModule;
  _fuse_conv_bn_ model := Ok model;
  prepare _ _ _ _ _ _ := Raise (ValueError "unsupported qconfig");
  _rearrange_weight_observer_for_decomposed_linear model := Ok model;
  _convert_to_reference_decomposed_fx model := Ok model
|}.

(** A match as no matcher run builds it: the [None] bias ahead of the
    convolution. *)
Definition bias_first_match : InternalMatch :=
  mkInternalMatch [10] [ ("arg2_1", None); ("convolution_default", Some 4) ].



(** *** Two conv + bn blocks in a row

    [x -> conv(bias) -> bn -> getitem -> conv(bias=None) -> bn -> getitem],
    after both replacement passes.  Objects 3, 8 and 9 are the first
    block's matched conv, bn and getitem and objects 10 to 22 its
    replacement; objects 24, 29 and 30 are the second block's matched
    nodes and objects 31 to 40 its replacement.  The second block was
    matched after the first was replaced, so its input is the first
    replacement's getitem, object 22. *)
Definition two_block_objects : list Node :=
  [ (* 0 *) placeholder "x";
    (* 1 *) placeholder "conv1_weight";
    (* 2 *) placeholder "conv1_bias";
    (* 3 *) conv_node "convolution_default" (ANode 0) (ANode 1) (ANode 2)
              [2; 2]%Z [1; 1]%Z [1; 1]%Z 1 (meta_of "conv1" "conv1-qspec");
    (* 4 *) placeholder "bn1_weight";
    (* 5 *) placeholder "bn1_bias";
    (* 6 *) placeholder "bn1_running_mean";
    (* 7 *) placeholder "bn1_running_var";
    (* 8 *) bn_node "_native_batch_norm_legit_default" 3 4 5 6 7 (meta_of "bn1" "bn1-qspec");
    (* 9 *) getitem_node "getitem" 8 (meta_of "bn1 output" "bn1-output-qspec");
    (* 10 *) call "add" "aten.add.Tensor" [ANode 7; AFloat "1e-05"];
    (* 11 *) call "sqrt" "aten.sqrt.default" [ANode 10];
    (* 12 *) call "div" "aten.div.Tensor" [ANode 4; ANode 11];
    (* 13 *) call "view" "aten.view.default" [ANode 12; AInts [-1; 1; 1; 1]%Z];
    (* 14 *) call "mul" "aten.mul.Tensor" [ANode 1; ANode 13];
    (* 15 *) call "zeros_like" "aten.zeros_like.default" [ANode 2];
    (* 16 *) conv_node "convolution_default_2" (ANode 0) (ANode 14) (ANode 15)
               [1; 1]%Z [0; 0]%Z [1; 1]%Z 1 no_meta;
    (* 17 *) call "view_1" "aten.view.default" [ANode 12; AInts [1; -1; 1; 1]%Z];
    (* 18 *) call "div_1" "aten.div.Tensor" [ANode 16; ANode 17];
    (* 19 *) call "view_2" "aten.view.default" [ANode 2; AInts [1; -1; 1; 1]%Z];
    (* 20 *) call "add_1" "aten.add.Tensor" [ANode 18; ANode 19];
    (* 21 *) bn_node "_native_batch_norm_legit_default_2" 20 4 5 6 7 no_meta;
    (* 22 *) getitem_node "getitem_2" 21 no_meta;
    (* 23 *) placeholder "conv2_weight";
    (* 24 *) conv_node "convolution_default_1" (ANode 22) (ANode 23) ANone
               [1; 1]%Z [2; 2]%Z [1; 1]%Z 1 (meta_of "conv2" "conv2-qspec");
    (* 25 *) placeholder "bn2_weight";
    (* 26 *) placeholder "bn2_bias";
    (* 27 *) placeholder "bn2_running_mean";
    (* 28 *) placeholder "bn2_running_var";
    (* 29 *) bn_node "_native_batch_norm_legit_default_1" 24 25 26 27 28
               (meta_of "bn2" "bn2-qspec");
    (* 30 *) getitem_node "getitem_1" 29 (meta_of "bn2 output" "bn2-output-qspec");
    (* 31 *) call "add_2" "aten.add.Tensor" [ANode 28; AFloat "1e-05"];
    (* 32 *) call "sqrt_1" "aten.sqrt.default" [ANode 31];
    (* 33 *) call "div_2" "aten.div.Tensor" [ANode 25; ANode 32];
    (* 34 *) call "view_3" "aten.view.default" [ANode 33; AInts [-1; 1; 1; 1]%Z];
    (* 35 *) call "mul_1" "aten.mul.Tensor" [ANode 23; ANode 34];
    (* 36 *) conv_node "convolution_default_3" (ANode 22) (ANode 35) ANone
               [1; 1]%Z [0; 0]%Z [1; 1]%Z 1 no_meta;
    (* 37 *) call "view_4" "aten.view.default" [ANode 33; AInts [1; -1; 1; 1]%Z];
    (* 38 *) call "div_3" "aten.div.Tensor" [ANode 36; ANode 37];
    (* 39 *) bn_node "_native_batch_norm_legit_default_3" 38 25 26 27 28 no_meta;
    (* 40 *) getitem_node "getitem_3" 39 no_meta ].

Definition two_block_store : Store := store_of two_block_objects.

Definition first_block_replaced : ReplacedPatterns :=
  mkReplacedPatterns 9
    [ ("getitem", Some 9);
      ("_native_batch_norm_legit_default", Some 8);
      ("convolution_default", Some 3);
      ("arg0_1", Some 0);
      ("arg1_1", Some 1);
      ("arg2_1", Some 2);
      ("arg3_1", Some 4);
      ("arg4_1", Some 5);
      ("arg5_1", Some 6);
      ("arg6_1", Some 7) ]
    [22].

Definition second_block_replaced : ReplacedPatterns :=
  mkReplacedPatterns 30
    [ ("getitem", Some 30);
      ("_native_batch_norm_legit_default", Some 29);
      ("convolution_default", Some 24);
      ("arg0_1", Some 22);         (* x: the first replacement's getitem *)
      ("arg1_1", Some 23);
      ("arg2_1", None);            (* conv_bias *)
      ("arg3_1", Some 25);
      ("arg4_1", Some 26);
      ("arg5_1", Some 27);
      ("arg6_1", Some 28) ]
    [40].

(** A node traced from inside [features.conv1]. *)
Definition conv1_node : Node :=
  mkNode "convolution_default" aten_convolution_default []
    (mkMeta (Some [ ("L__self__", ("", ModuleClass "Net"));
                    ("L__self___features_conv1",
                     ("features.conv1", ModuleClass "torch.nn.Conv2d")) ]) ∅).

(** A traced model of two nodes: [conv1_node] and one with an empty module
    stack. *)
Definition small_model : QuantizePt2e.GraphModule :=
  mkGraphModule
    [ conv1_node;
      mkNode "output" (other_target "output") [] (mkMeta (Some []) ∅) ].

End Scenarios.

Import Scenarios.

(** ** Vocabulary of the specification *)

(** The scan of [nodes_map] up to its first node with the convolution
    target: every entry before it is a node with another target. *)
Inductive scan_finds (st : Store) : list (string * option node_id) -> node_id -> Prop :=
  | scan_here p c rest :
      target (st c) = aten_convolution_default ->
      scan_finds st ((p, Some c) :: rest) c
  | scan_skip p n rest c :
      target (st n) <> aten_convolution_default ->
      scan_finds st rest c ->
      scan_finds st ((p, Some n) :: rest) c.

(** [backbone st n visited stop]: following first arguments from [n]
    passes through the nodes [visited] (each has a node as first
    argument) and arrives at [stop]. *)
Fixpoint backbone (st : Store) (n : node_id) (visited : list node_id)
    (stop : node_id) : Prop :=
  match visited with
  | [] => n = stop
  | v :: rest =>
      v = n /\ exists n', args (st n) !! 0%nat = Some (ANode n')
                         /\ backbone st n' rest stop
  end.

(** The two variables of the walk after it has looked at node [n]. *)
Definition conv_seen (st : Store) (o : option node_id) (n : node_id)
    : option node_id :=
  if decide (target (st n) = aten_convolution_default) then Some n else o.

Definition bn_seen (st : Store) (o : option node_id) (n : node_id)
    : option node_id :=
  if decide (target (st n) = aten_native_batch_norm_legit_default) then Some n else o.

(** No original of the match is one of the three replacement nodes. *)
Definition apart (c b g : node_id) (items : list (string * option node_id)) : Prop :=
  Forall (fun e => forall o, e.2 = Some o -> o ∉ [c; b; g]) items.

(** No original among [items] has target [t]. *)
Definition lacks (st : Store) (t : Target)
    (items : list (string * option node_id)) : Prop :=
  Forall (fun e => forall o, e.2 = Some o -> target (st o) <> t) items.

Definition has_target (st : Store) (t : Target) (l : list node_id) : Prop :=
  exists n, n ∈ l /\ target (st n) = t.

(** Arguments refer to nodes created earlier (no forward references). *)
Definition topological (st : Store) : Prop :=
  forall n i m, args (st n) !! i = Some (ANode m) -> m < n.

(** A replacement result that breaks the orchestrator's expectations. *)
Definition malformed (st : Store) (r : ReplacedPatterns) : Prop :=
  length (replacements r) <> 1%nat
  \/ exists g, replacements r = [g] /\ target (st g) <> operator_getitem.

(** The operations met when going from a recorded computation to its
    first operand, again and again, down to an input (which gives its
    name). *)
Fixpoint spine (e : Sym) : list string :=
  match e with
  | SInput n _ _ => [n]
  | SSqrt a => "sqrt" :: spine a
  | SAddScalar a _ | SAdd a _ => "add" :: spine a
  | SMul a _ => "mul" :: spine a
  | SDiv a _ => "div" :: spine a
  | SReshape a _ => "reshape" :: spine a
  | SZerosLike a _ => "zeros_like" :: spine a
  | SConv2d x _ _ | SConv2dNoBias x _ => "conv2d" :: spine x
  | SBatchNorm x _ _ _ _ _ _ => "batch_norm" :: spine x
  end.

(** [".".join(pieces)] *)
Fixpoint join_dot (pieces : list string) : string :=
  match pieces with
  | [] => ""
  | [p] => p
  | p :: rest => p +:+ "." +:+ join_dot rest
  end.

Fixpoint has_dot (s : string) : bool :=
  match s with
  | EmptyString => false
  | String c s' => bool_decide (c = "."%char) || has_dot s'
  end.

(** [c] is the last dot-separated component of [path]. *)
Definition last_component (path c : string) : Prop :=
  has_dot c = false /\ (path = c \/ exists front, path = front +:+ "." +:+ c).

(** The scope the specification prescribes for a node. *)
Definition scope_rule (n : Node) (s : Scope) : Prop :=
  match nn_module_stack (meta n) with
  | Some [] | None => s = ("", NoneType)
  | Some stack =>
      exists front key path ty,
        stack = (front ++ [(key, (path, ty))])%list
        /\ last_component path s.1 /\ s.2 = ty
  end.

Section LogVocabulary.
Context `{Stages}.

(** A call of the QAT fusion pass occurs in the log before a call of the
    prepare stage. *)
Definition qat_fusion_precedes_prepare (log : list Call) : Prop :=
  exists i j c p, i < j /\ log !! i = Some c /\ is_call_fuse_conv_bn_qat c = true
                 /\ log !! j = Some p /\ is_call_prepare p = true.

End LogVocabulary.

(** ** Properties of the match filters *)

Section FilterProperties.
Context {Graph : Type}.
Implicit Types (st : Store) (m : InternalMatch) (g : Graph).

Lemma scan_finds_result st items c bias :
  scan_finds st items c ->
  args (st c) !! 2%nat = Some bias ->
  has_conv_bias_scan st items = Ok (is_not_None bias).
Proof.
  induction 1 as [p c rest Hc | p n rest c Hn _ IH]; intros Hbias; simpl.
  - rewrite decide_True by done. by rewrite Hbias.
  - rewrite decide_False by done. auto.
Qed.

Lemma scan_without_conv st items :
  Forall (fun e => exists n, e.2 = Some n
                   /\ target (st n) <> aten_convolution_default) items ->
  has_conv_bias_scan st items
  = Raise (ValueError "Could not find conv node in matched conv + bn pattern").
Proof.
  induction 1 as [| [p o] rest (n & Ho & Hn) _ IH]; simpl in *; first done.
  subst o. by rewrite decide_False.
Qed.


Lemma no_conv_bias_is_negation st m g1 g2 :
  _no_conv_bias_filter st m g1 g2 = negb <$> _has_conv_bias_filter st m g1 g2.
Proof.
  unfold _no_conv_bias_filter.
  by destruct (_has_conv_bias_filter st m g1 g2).
Qed.



(** C4. [_no_conv_bias_filter] is the negation of
    [_has_conv_bias_filter]: it returns [not b] whenever the other returns
    [b] and raises whenever the other raises.  No match satisfies both
    filters, and a match whose scan finds a convolution node satisfies
    exactly one of them. *)
Theorem conv_bias_filters_partition st m g1 g2 :
  _no_conv_bias_filter st m g1 g2 = negb <$> _has_conv_bias_filter st m g1 g2
  /\ ~ (_has_conv_bias_filter st m g1 g2 = Ok true
        /\ _no_conv_bias_filter st m g1 g2 = Ok true)
  /\ (forall c bias,
        scan_finds st (nodes_map m) c ->
        args (st c) !! 2%nat = Some bias ->
        (_has_conv_bias_filter st m g1 g2 = Ok true
         /\ _no_conv_bias_filter st m g1 g2 = Ok false)
        \/ (_has_conv_bias_filter st m g1 g2 = Ok false
            /\ _no_conv_bias_filter st m g1 g2 = Ok true)).
Proof.
  rewrite no_conv_bias_is_negation. split; [done | split].
  - intros [-> Hno]. discriminate Hno.
  - intros c bias Hscan Hbias. unfold _has_conv_bias_filter.
    rewrite (scan_finds_result _ _ _ _ Hscan Hbias).
    destruct (is_not_None bias); [left | right]; done.
Qed.

End FilterProperties.


Lemma separable_scan_finds :
  scan_finds separable_store (rp_nodes_map separable_replaced) 5.
Proof.
  unfold separable_replaced; simpl.
  do 2 (apply scan_skip; [by vm_compute |]).
  apply scan_here. by vm_compute.
Qed.




(** The two filters on the match of the convolution with bias. *)
Lemma conv_bias_filters_partition_witness :
  let m := mkInternalMatch [11] (rp_nodes_map separable_replaced) in
  (_has_conv_bias_filter separable_store m tt tt = Ok true
   /\ _no_conv_bias_filter separable_store m tt tt = Ok false)
  \/ (_has_conv_bias_filter separable_store m tt tt = Ok false
      /\ _no_conv_bias_filter separable_store m tt tt = Ok true).
Proof.
  exact (proj2 (proj2 (conv_bias_filters_partition separable_store
                  (mkInternalMatch [11] (rp_nodes_map separable_replaced)) tt tt))
           5 (ANode 4) separable_scan_finds eq_refl).
Defined.

(** ** Properties of the backward walk *)

Section Walk.
Variable st : Store.

Lemma climb_done fuel n c b : climb fuel st n (Some c) (Some b) = Ok (c, b).
Proof. by destruct fuel. Qed.

Lemma climb_step fuel n n' co bo :
  ~ (is_Some co /\ is_Some bo) ->
  args (st n) !! 0%nat = Some (ANode n') ->
  climb (S fuel) st n co bo = climb fuel st n' (conv_seen st co n) (bn_seen st bo n).
Proof.
  intros Hnot Harg. unfold conv_seen, bn_seen.
  destruct co as [c|], bo as [b|]; simpl; rewrite ?Harg; try done.
  exfalso. apply Hnot. by split.
Qed.

Lemma climb_stop fuel n a co bo :
  ~ (is_Some co /\ is_Some bo) ->
  args (st n) !! 0%nat = Some a ->
  isinstance_Node a = false ->
  climb (S fuel) st n co bo = Raise (AssertionError "").
Proof.
  intros Hnot Harg Ha.
  destruct co as [c|], bo as [b|]; simpl; rewrite ?Harg;
    try (by destruct a).
  exfalso. apply Hnot. by split.
Qed.

(** The walk finds both nodes once they lie on the visited stretch. *)
Lemma climb_finds visited : forall fuel n stop co bo,
  backbone st n visited stop ->
  (forall c, co = Some c -> target (st c) = aten_convolution_default) ->
  (forall b, bo = Some b -> target (st b) = aten_native_batch_norm_legit_default) ->
  is_Some co \/ has_target st aten_convolution_default visited ->
  is_Some bo \/ has_target st aten_native_batch_norm_legit_default visited ->
  length visited <= fuel ->
  exists c b,
    climb fuel st n co bo = Ok (c, b)
    /\ target (st c) = aten_convolution_default
    /\ target (st b) = aten_native_batch_norm_legit_default
    /\ (co = Some c \/ c ∈ visited) /\ (bo = Some b \/ b ∈ visited).
Proof.
  induction visited as [| v rest IH]; intros fuel n stop co bo Hbb Hco Hbo Hc Hb Hfuel.
  - destruct Hc as [[c ->] | (x & Hx & _)]; last by inversion Hx.
    destruct Hb as [[b ->] | (x & Hx & _)]; last by inversion Hx.
    exists c, b. rewrite climb_done. repeat split; auto.
  - destruct (decide (is_Some co /\ is_Some bo)) as [[[c ->] [b ->]] | Hnot].
    { exists c, b. rewrite climb_done. repeat split; auto. }
    destruct Hbb as (-> & n' & Harg & Hbb).
    destruct fuel as [| fuel]; simpl in Hfuel; first lia.
    rewrite (climb_step _ _ _ _ _ Hnot Harg).
    destruct (IH fuel n' stop (conv_seen st co n) (bn_seen st bo n) Hbb)
      as (c & b & Hrun & Hct & Hbt & Hcin & Hbin).
    + unfold conv_seen. intros c. case_decide; [by intros [= <-] | apply Hco].
    + unfold bn_seen. intros b. case_decide; [by intros [= <-] | apply Hbo].
    + unfold conv_seen. case_decide; first by left; eexists.
      destruct Hc as [? | (x & Hx & Hxt)]; first by left.
      right. exists x. split; last done.
      apply elem_of_cons in Hx as [-> | ?]; done.
    + unfold bn_seen. case_decide; first by left; eexists.
      destruct Hb as [? | (x & Hx & Hxt)]; first by left.
      right. exists x. split; last done.
      apply elem_of_cons in Hx as [-> | ?]; done.
    + lia.
    + exists c, b. split; first done. split; first done. split; first done.
      split.
      * destruct Hcin as [Hcin | ?]; last by right; apply list_elem_of_further.
        unfold conv_seen in Hcin. case_decide; last by left.
        right. injection Hcin as ->. apply list_elem_of_here.
      * destruct Hbin as [Hbin | ?]; last by right; apply list_elem_of_further.
        unfold bn_seen in Hbin. case_decide; last by left.
        right. injection Hbin as ->. apply list_elem_of_here.
Qed.

(** The walk fails at the first argument that is not a node, if it comes
    before both nodes are found. *)
Lemma climb_asserts visited : forall fuel n stop a co bo,
  backbone st n visited stop ->
  ~ ((is_Some co \/ has_target st aten_convolution_default visited)
     /\ (is_Some bo \/ has_target st aten_native_batch_norm_legit_default visited)) ->
  args (st stop) !! 0%nat = Some a ->
  isinstance_Node a = false ->
  length visited < fuel ->
  climb fuel st n co bo = Raise (AssertionError "").
Proof.
  induction visited as [| v rest IH]; intros fuel n stop a co bo Hbb Hnot Harg Ha Hfuel.
  - simpl in Hbb. subst stop. destruct fuel as [| fuel]; first lia.
    apply (climb_stop _ _ a); [| done..]. intros [? ?]. apply Hnot. by split; left.
  - destruct Hbb as (-> & n' & Hn' & Hbb).
    destruct fuel as [| fuel]; simpl in Hfuel; first lia.
    rewrite (climb_step _ _ n'); [| | done].
    + apply (IH fuel n' stop a); [done | | done | done | lia].
      intros [Hc Hb]. apply Hnot. split.
      * unfold conv_seen in Hc. case_decide as Ht.
        -- right. exists n. split; [apply list_elem_of_here | done].
        -- destruct Hc as [? | (x & ? & ?)]; first by left.
           right. exists x. split; [by apply list_elem_of_further | done].
      * unfold bn_seen in Hb. case_decide as Ht.
        -- right. exists n. split; [apply list_elem_of_here | done].
        -- destruct Hb as [? | (x & ? & ?)]; first by left.
           right. exists x. split; [by apply list_elem_of_further | done].
    + intros [? ?]. apply Hnot. by split; left.
Qed.

(** On a graph without forward references the walk ends on its own. *)
Lemma climb_terminates : forall fuel n co bo,
  topological st -> n < fuel -> climb fuel st n co bo <> OutOfFuel.
Proof.
  induction fuel as [| fuel IH]; intros n co bo Htop Hfuel; first lia.
  destruct (decide (is_Some co /\ is_Some bo)) as [[[c ->] [b ->]] | Hnot].
  { by rewrite climb_done. }
  destruct (args (st n) !! 0%nat) as [a |] eqn:Harg.
  - destruct (isinstance_Node a) eqn:Ha.
    + destruct a as [n' | | | | |]; try done.
      rewrite (climb_step _ _ _ _ _ Hnot Harg).
      apply IH; first done. specialize (Htop _ _ _ Harg). lia.
    + by rewrite (climb_stop _ _ _ _ _ Hnot Harg Ha).
  - destruct co, bo; simpl; rewrite ?Harg; done.
Qed.

(** More fuel does not change an answer. *)
Lemma climb_more_fuel : forall fuel n co bo r,
  climb fuel st n co bo = Ok r ->
  forall fuel', fuel <= fuel' -> climb fuel' st n co bo = Ok r.
Proof.
  induction fuel as [| fuel IH]; intros n co bo r Hrun fuel' Hle.
  - destruct co, bo; try done. rewrite climb_done in Hrun. by rewrite climb_done.
  - destruct (decide (is_Some co /\ is_Some bo)) as [[[c ->] [b ->]] | Hnot].
    { rewrite climb_done in Hrun. by rewrite climb_done. }
    destruct fuel' as [| fuel']; first lia.
    destruct (args (st n) !! 0%nat) as [a |] eqn:Harg.
    + destruct (isinstance_Node a) eqn:Ha.
      * destruct a as [n' | | | | |]; try done.
        rewrite (climb_step _ _ _ _ _ Hnot Harg) in Hrun.
        rewrite (climb_step _ _ _ _ _ Hnot Harg).
        apply (IH _ _ _ _ Hrun). lia.
      * by rewrite (climb_stop _ _ _ _ _ Hnot Harg Ha) in Hrun.
    + destruct co, bo; try (exfalso; apply Hnot; by split);
        simpl in Hrun; rewrite Harg in Hrun; done.
Qed.

(** What the walk returns are nodes with the two targets. *)
Lemma climb_sound : forall fuel n co bo c b,
  (forall c', co = Some c' -> target (st c') = aten_convolution_default) ->
  (forall b', bo = Some b' -> target (st b') = aten_native_batch_norm_legit_default) ->
  climb fuel st n co bo = Ok (c, b) ->
  target (st c) = aten_convolution_default
  /\ target (st b) = aten_native_batch_norm_legit_default.
Proof.
  induction fuel as [| fuel IH]; intros n co bo c b Hco Hbo Hrun.
  - destruct co, bo; try done. rewrite climb_done in Hrun.
    injection Hrun as <- <-. auto.
  - destruct (decide (is_Some co /\ is_Some bo)) as [[[c' ->] [b' ->]] | Hnot].
    { rewrite climb_done in Hrun. injection Hrun as <- <-. auto. }
    destruct (args (st n) !! 0%nat) as [a |] eqn:Harg.
    + destruct (isinstance_Node a) eqn:Ha.
      * destruct a as [n' | | | | |]; try done.
        rewrite (climb_step _ _ _ _ _ Hnot Harg) in Hrun.
        apply (IH _ _ _ _ _) in Hrun; first done.
        -- unfold conv_seen. intros c'. case_decide; [by intros [= <-] | apply Hco].
        -- unfold bn_seen. intros b'. case_decide; [by intros [= <-] | apply Hbo].
      * by rewrite (climb_stop _ _ _ _ _ Hnot Harg Ha) in Hrun.
    + destruct co, bo; try (exfalso; apply Hnot; by split);
        simpl in Hrun; rewrite Harg in Hrun; done.
Qed.

End Walk.

(** C7. The walk from the anchor along first arguments ends with the
    replacement convolution and batch-norm nodes when both lie on the
    stretch of the chain whose nodes all have a node as first argument
    (any fuel from the length of that stretch on suffices); when the chain
    reaches a first argument that is not a node before both are found, the
    walk fails with an assertion error; and on a graph without forward
    references it never runs forever. *)
Theorem climb_spec (st : Store) (anchor : node_id) :
  (forall visited stop,
      backbone st anchor visited stop ->
      has_target st aten_convolution_default visited ->
      has_target st aten_native_batch_norm_legit_default visited ->
      exists c b,
        c ∈ visited /\ b ∈ visited
        /\ target (st c) = aten_convolution_default
        /\ target (st b) = aten_native_batch_norm_legit_default
        /\ forall fuel, length visited <= fuel ->
                        climb fuel st anchor None None = Ok (c, b))
  /\ (forall visited stop a,
        backbone st anchor visited stop ->
        ~ (has_target st aten_convolution_default visited
           /\ has_target st aten_native_batch_norm_legit_default visited) ->
        args (st stop) !! 0%nat = Some a ->
        isinstance_Node a = false ->
        forall fuel, length visited < fuel ->
                     climb fuel st anchor None None = Raise (AssertionError ""))
  /\ (topological st ->
      forall fuel, anchor < fuel -> climb fuel st anchor None None <> OutOfFuel).
Proof.
  split; [| split].
  - intros visited stop Hbb Hc Hb.
    destruct (climb_finds st visited (length visited) anchor stop None None)
      as (c & b & Hrun & Hct & Hbt & [? | Hcin] & [? | Hbin]); try done; try by right.
    exists c, b. do 4 (split; first done). intros fuel Hfuel.
    by apply (climb_more_fuel st (length visited)).
  - intros visited stop a Hbb Hnot Harg Ha fuel Hfuel.
    apply (climb_asserts st visited fuel anchor stop a); try done.
    intros [[[? ?] | ?] [[? ?] | ?]]; try done. by apply Hnot.
  - intros Htop fuel Hfuel. by apply climb_terminates.
Qed.

(** The backbone of the replacement in the separable-convolution graph:
    getitem, batch norm, add, div, convolution. *)
Lemma climb_spec_witness :
  exists c b,
    target (separable_store c) = aten_convolution_default
    /\ target (separable_store b) = aten_native_batch_norm_legit_default
    /\ climb 5 separable_store 24 None None = Ok (c, b).
Proof.
  destruct (proj1 (climb_spec separable_store 24) [24; 23; 22; 20; 18] 2)
    as (c & b & _ & _ & Hc & Hb & Hrun).
  - simpl. repeat (split; [reflexivity |]; eexists; split; [reflexivity |]).
    reflexivity.
  - exists 18. split; [| reflexivity]. do 4 apply list_elem_of_further.
    apply list_elem_of_here.
  - exists 23. split; [| reflexivity]. apply list_elem_of_further.
    apply list_elem_of_here.
  - exists c, b. split; [exact Hc |]. split; [exact Hb |].
    apply Hrun. simpl. lia.
Defined.

(** A walk that leaves the replacement runs into a placeholder, which has
    no first argument at all: [n.args[0]] raises [IndexError]. *)
Example climb_past_placeholder :
  climb 25 maxpool_store 2 None None = Raise IndexError.
Proof. reflexivity. Qed.

(** ** Properties of the post-processing loop *)

Section PostProcessing.
Implicit Types (st : Store) (r : ReplacedPatterns).

Lemma target_set_meta st n m i : target (set_meta st n m i) = target (st i).
Proof.
  unfold set_meta, insert, fn_insert. by destruct (decide (n = i)) as [-> |].
Qed.

Lemma target_set_args st n a i : target (set_args st n a i) = target (st i).
Proof.
  unfold set_args, insert, fn_insert. by destruct (decide (n = i)) as [-> |].
Qed.

Lemma copy_step_target c b g st item i :
  target (copy_step c b g st item i) = target (st i).
Proof.
  unfold copy_step. destruct item.2 as [o |]; last done. cbv zeta.
  repeat first [ rewrite target_set_meta | rewrite target_set_args
               | case_decide ]; done.
Qed.

Lemma copy_loop_target c b g items : forall st i,
  target (foldl (copy_step c b g) st items i) = target (st i).
Proof.
  induction items as [| item items IH]; intros st i; simpl; first done.
  by rewrite IH, copy_step_target.
Qed.

(** Post-processing never changes a node's target. *)
Lemma post_process_one_target fuel st r st' i :
  post_process_one fuel st r = Ok st' -> target (st' i) = target (st i).
Proof.
  unfold post_process_one.
  destruct (find_replacement_nodes fuel st r) as [[[c b] g] | |]; simpl; try done.
  intros [= <-]. apply copy_loop_target.
Qed.

Lemma post_process_target fuel rs : forall st st' i,
  post_process fuel rs st = Ok st' -> target (st' i) = target (st i).
Proof.
  induction rs as [| r rs IH]; intros st st' i; simpl.
  - by intros [= <-].
  - destruct (post_process_one fuel st r) as [st1 | |] eqn:Hone; simpl; try done.
    intros Hrest. rewrite (IH _ _ _ Hrest).
    by apply (post_process_one_target fuel st r).
Qed.

Lemma post_process_app fuel rs1 : forall rs2 st,
  post_process fuel (rs1 ++ rs2)%list st
  = (st1 ← post_process fuel rs1 st; post_process fuel rs2 st1).
Proof.
  induction rs1 as [| r rs1 IH]; intros rs2 st; simpl; first done.
  destruct (post_process_one fuel st r); simpl; auto.
Qed.

Lemma malformed_same_targets st st' r :
  (forall i, target (st' i) = target (st i)) -> malformed st r -> malformed st' r.
Proof.
  intros Hsame [Hlen | (g & Hg & Ht)]; [by left | right].
  exists g. by rewrite Hsame.
Qed.

Lemma malformed_asserts fuel st r :
  malformed st r ->
  exists msg, find_replacement_nodes fuel st r = Raise (AssertionError msg).
Proof.
  unfold find_replacement_nodes. intros [Hlen | (g & Hg & Ht)].
  - rewrite bool_decide_eq_false_2 by done. by eexists.
  - rewrite Hg. simpl. rewrite bool_decide_eq_false_2 by done. by eexists.
Qed.

(** C5. A replacement result whose list of replacement nodes does not
    have length one, or whose single replacement node is not an
    [operator.getitem], makes its post-processing fail with an assertion
    error; the loop over all results raises that error when it reaches
    the result, and never completes when such a result is in the list. *)
Theorem malformed_result_is_fatal fuel st r :
  malformed st r ->
  (exists msg, post_process_one fuel st r = Raise (AssertionError msg))
  /\ (forall before after st0,
        post_process fuel before st0 = Ok st ->
        exists msg,
          post_process fuel (before ++ r :: after)%list st0
          = Raise (AssertionError msg))
  /\ (forall before after st',
        post_process fuel (before ++ r :: after)%list st <> Ok st').
Proof.
  intros Hbad.
  assert (Hone : forall st1, (forall i, target (st1 i) = target (st i)) ->
            exists msg, post_process_one fuel st1 r = Raise (AssertionError msg)).
  { intros st1 Hsame.
    destruct (malformed_asserts fuel st1 r) as [msg Hmsg].
    - by apply (malformed_same_targets st).
    - exists msg. unfold post_process_one. by rewrite Hmsg. }
  split; [by apply Hone | split].
  - intros before after st0 Hbefore. destruct (Hone st) as [msg Hmsg]; first done.
    exists msg. rewrite post_process_app, Hbefore. simpl. by rewrite Hmsg.
  - intros before after st'. rewrite post_process_app.
    destruct (post_process fuel before st) as [st1 | |] eqn:Hbefore; simpl; try done.
    destruct (Hone st1) as [msg Hmsg].
    + intros i. by apply (post_process_target fuel before).
    + by rewrite Hmsg.
Qed.

End PostProcessing.

(** A result with two replacement nodes. *)
Lemma malformed_result_is_fatal_witness :
  exists msg,
    post_process_one 25 separable_store
      (mkReplacedPatterns 11 (rp_nodes_map separable_replaced) [24; 23])
    = Raise (AssertionError msg).
Proof.
  apply (malformed_result_is_fatal 25 separable_store
           (mkReplacedPatterns 11 (rp_nodes_map separable_replaced) [24; 23])).
  left. simpl. lia.
Defined.

(** ** The copy of metadata and constant arguments *)

(** A pair whose original node is [None] is skipped. *)
Lemma copy_step_None c b g st p : copy_step c b g st (p, None) = st.
Proof. reflexivity. Qed.

(** One iteration on an original that is none of the three replacement
    nodes: it writes the convolution node for a convolution, the batch-norm
    node for a batch norm, the getitem node for a getitem, and nothing
    else. *)
Lemma copy_step_Some c b g st p o :
  NoDup [c; b; g] -> o ∉ [c; b; g] ->
  let st' := copy_step c b g st (p, Some o) in
  (forall i, i ∉ [c; b; g] -> st' i = st i)
  /\ st' c = (if decide (target (st o) = aten_convolution_default)
              then mkNode (name (st c)) (target (st c))
                     (take 3 (args (st c)) ++ drop 3 (args (st o)))%list (meta (st o))
              else st c)
  /\ st' b = (if decide (target (st o) = aten_native_batch_norm_legit_default)
              then mkNode (name (st b)) (target (st b)) (args (st b)) (meta (st o))
              else st b)
  /\ st' g = (if decide (target (st o) = operator_getitem)
              then mkNode (name (st g)) (target (st g)) (args (st g)) (meta (st o))
              else st g).
Proof.
  intros Hnd Ho.
  assert (c <> b /\ c <> g /\ b <> g /\ o <> c /\ o <> b /\ o <> g) as (?&?&?&?&?&?).
  { rewrite !list.NoDup_cons in Hnd. rewrite !not_elem_of_cons in *. intuition congruence. }
  simpl. unfold copy_step. simpl. unfold set_meta, set_args, insert, fn_insert.
  repeat split.
  - intros i Hi. rewrite !not_elem_of_cons in Hi. destruct Hi as (?&?&?&_).
    repeat (case_decide; simplify_eq/=; try done).
  - repeat (case_decide; simplify_eq/=; try done).
  - repeat (case_decide; simplify_eq/=; try done).
  - repeat (case_decide; simplify_eq/=; try done).
Qed.

Section CopyLoop.
Variables c b g : node_id.
Hypothesis Hdistinct : NoDup [c; b; g].

Lemma copy_loop_frame items : forall st i,
  apart c b g items -> i ∉ [c; b; g] -> foldl (copy_step c b g) st items i = st i.
Proof.
  induction items as [| [p [o |]] items IH]; intros st i Hap Hi; simpl; first done.
  - inversion_clear Hap as [| ? ? Ho Hrest]. rewrite IH by done.
    by apply (copy_step_Some c b g st p o Hdistinct (Ho o eq_refl)).
  - inversion_clear Hap. by rewrite IH.
Qed.

Lemma copy_loop_keeps_prefix items : forall st,
  apart c b g items -> 3 <= length (args (st c)) ->
  take 3 (args (foldl (copy_step c b g) st items c)) = take 3 (args (st c))
  /\ 3 <= length (args (foldl (copy_step c b g) st items c)).
Proof.
  induction items as [| [p [o |]] items IH]; intros st Hap Hlen; simpl; first done.
  - inversion_clear Hap as [| ? ? Ho Hrest].
    destruct (copy_step_Some c b g st p o Hdistinct (Ho o eq_refl)) as (_ & Hc & _).
    destruct (IH (copy_step c b g st (p, Some o)) Hrest) as [Htake Hlen'].
    + rewrite Hc. case_decide; last done. simpl.
      rewrite length_app, length_take. lia.
    + split; last done. rewrite Htake, Hc. case_decide; last done. simpl.
      rewrite take_app_le by (rewrite length_take; lia).
      rewrite take_take. by rewrite Nat.min_id.
  - inversion_clear Hap. by apply IH.
Qed.

Lemma copy_loop_keeps st0 items : forall st,
  (forall i, target (st i) = target (st0 i)) -> apart c b g items ->
  (lacks st0 aten_convolution_default items ->
     foldl (copy_step c b g) st items c = st c)
  /\ (lacks st0 aten_native_batch_norm_legit_default items ->
       foldl (copy_step c b g) st items b = st b)
  /\ (lacks st0 operator_getitem items ->
       foldl (copy_step c b g) st items g = st g).
Proof.
  induction items as [| [p [o |]] items IH]; intros st Hsame Hap; simpl; first done.
  - inversion_clear Hap as [| ? ? Ho Hrest].
    destruct (copy_step_Some c b g st p o Hdistinct (Ho o eq_refl))
      as (_ & Hc & Hb & Hg).
    destruct (IH (copy_step c b g st (p, Some o))) as (IHc & IHb & IHg); [| done |].
    { intros i. by rewrite copy_step_target. }
    repeat split; intros Hl; inversion_clear Hl as [| ? ? Hno Hl'].
    + rewrite IHc, Hc by done. rewrite decide_False; first done.
      rewrite Hsame. by apply Hno.
    + rewrite IHb, Hb by done. rewrite decide_False; first done.
      rewrite Hsame. by apply Hno.
    + rewrite IHg, Hg by done. rewrite decide_False; first done.
      rewrite Hsame. by apply Hno.
  - inversion_clear Hap.
    destruct (IH st) as (IHc & IHb & IHg); [done | done |].
    repeat split; intros Hl; inversion_clear Hl; auto.
Qed.

(** The last original with a given target decides what its replacement
    node ends with. *)
Lemma copy_loop_last_wins st pre p o post :
  apart c b g (pre ++ (p, Some o) :: post)%list ->
  let st' := foldl (copy_step c b g) st (pre ++ (p, Some o) :: post)%list in
  (target (st o) = aten_convolution_default ->
   lacks st aten_convolution_default post ->
   meta (st' c) = meta (st o)
   /\ (3 <= length (args (st c)) ->
       args (st' c) = (take 3 (args (st c)) ++ drop 3 (args (st o)))%list))
  /\ (target (st o) = aten_native_batch_norm_legit_default ->
      lacks st aten_native_batch_norm_legit_default post ->
      meta (st' b) = meta (st o))
  /\ (target (st o) = operator_getitem ->
      lacks st operator_getitem post ->
      meta (st' g) = meta (st o)).
Proof.
  intros Hap st'. subst st'. rewrite foldl_app. simpl.
  apply Forall_app in Hap as [Hpre Hpost].
  inversion_clear Hpost as [| ? ? Ho Hpost'].
  set (st1 := foldl (copy_step c b g) st pre).
  assert (Hsame1 : forall i, target (st1 i) = target (st i))
    by (intros i; apply copy_loop_target).
  assert (Ho1 : st1 o = st o) by (apply copy_loop_frame; [done | by apply Ho]).
  destruct (copy_step_Some c b g st1 p o Hdistinct (Ho o eq_refl))
    as (_ & Hc & Hb & Hg).
  destruct (copy_loop_keeps st post (copy_step c b g st1 (p, Some o)))
    as (Kc & Kb & Kg); [| done |].
  { intros i. by rewrite copy_step_target. }
  rewrite Ho1 in Hc, Hb, Hg.
  split; [| split].
  - intros Ht Hl. rewrite Kc, Hc by done. rewrite decide_True by done. simpl.
    split; first done. intros Hlen.
    destruct (copy_loop_keeps_prefix pre st Hpre Hlen) as [Htake _].
    fold st1 in Htake. by rewrite Htake.
  - intros Ht Hl. rewrite Kb, Hb by done. by rewrite decide_True.
  - intros Ht Hl. rewrite Kg, Hg by done. by rewrite decide_True.
Qed.

End CopyLoop.

(** The nodes the walk and the assertions hand to the copy loop have the
    three targets, so they are three different nodes. *)
Lemma find_replacement_nodes_targets fuel st r c b g :
  find_replacement_nodes fuel st r = Ok (c, b, g) ->
  target (st c) = aten_convolution_default
  /\ target (st b) = aten_native_batch_norm_legit_default
  /\ target (st g) = operator_getitem
  /\ NoDup [c; b; g].
Proof.
  unfold find_replacement_nodes.
  destruct (bool_decide (length (replacements r) = 1%nat)); simpl; last done.
  destruct (replacements r) as [| g' rest]; simpl; first done.
  destruct (bool_decide (target (st g') = operator_getitem)) eqn:Hg; simpl; last done.
  apply bool_decide_eq_true in Hg.
  destruct (climb fuel st g' None None) as [[c' b'] | |] eqn:Hrun; simpl; try done.
  intros [= -> -> ->].
  apply climb_sound in Hrun as [Hc Hb]; [| done | done].
  do 3 (split; first done).
  apply NoDup_cons_2.
  { rewrite !not_elem_of_cons. repeat split; try congruence. apply not_elem_of_nil. }
  apply NoDup_cons_2.
  { rewrite !not_elem_of_cons. repeat split; try congruence. apply not_elem_of_nil. }
  apply NoDup_cons_2; [apply not_elem_of_nil | apply NoDup_nil_2].
Qed.

(** X1. Post-processing of one result, read off its [nodes_map]: for each of
    the three targets, the last original with that target is the one whose
    metadata (and, for the convolution, trailing arguments) the replacement
    node ends with. *)
Lemma post_process_one_last_wins fuel st r c b g pre p o post :
  find_replacement_nodes fuel st r = Ok (c, b, g) ->
  rp_nodes_map r = (pre ++ (p, Some o) :: post)%list ->
  apart c b g (rp_nodes_map r) ->
  exists st',
    post_process_one fuel st r = Ok st'
    /\ (target (st o) = aten_convolution_default ->
        lacks st aten_convolution_default post ->
        meta (st' c) = meta (st o)
        /\ (3 <= length (args (st c)) ->
            args (st' c) = (take 3 (args (st c)) ++ drop 3 (args (st o)))%list))
    /\ (target (st o) = aten_native_batch_norm_legit_default ->
        lacks st aten_native_batch_norm_legit_default post ->
        meta (st' b) = meta (st o))
    /\ (target (st o) = operator_getitem ->
        lacks st operator_getitem post ->
        meta (st' g) = meta (st o)).
Proof.
  intros Hfind Hmap Hap.
  destruct (find_replacement_nodes_targets _ _ _ _ _ _ Hfind) as (_ & _ & _ & Hnd).
  unfold post_process_one. rewrite Hfind. simpl. eexists. split; first done.
  rewrite Hmap in Hap |- *. by apply copy_loop_last_wins.
Qed.

(** C1, on [x -> conv(groups=8, padding=1) -> conv(1x1, bias) -> bn]: the
    replacement convolution keeps its own input, weight and bias, but the
    arguments from position 3 on are those of the depthwise convolution
    that feeds the matched one (padding 1, groups 8), not those of the
    matched convolution (padding 0, groups 1). *)
Theorem separable_conv_args_come_from_input_conv :
  find_replacement_nodes 25 separable_store separable_replaced = Ok (18, 23, 24)
  /\ (fun st' => args (st' 18))
       <$> post_process_one 25 separable_store separable_replaced
     = Ok (take 3 (args (separable_store 18)) ++ drop 3 (args (separable_store 2)))%list
  /\ drop 3 (args (separable_store 2)) <> drop 3 (args (separable_store 5))
  /\ drop 3 (args (separable_store 5))
     = [AInts [1; 1]%Z; AInts [0; 0]%Z; AInts [1; 1]%Z; ABool false;
        AInts [0; 0]%Z; AInt 1]
  /\ drop 3 (args (separable_store 2))
     = [AInts [1; 1]%Z; AInts [1; 1]%Z; AInts [1; 1]%Z; ABool false;
        AInts [0; 0]%Z; AInt 8].
Proof.
  split; [by vm_compute |]. split; [by vm_compute |].
  split; [| split; by vm_compute].
  vm_compute. discriminate.
Qed.

(** C2, on [x -> max_pool -> getitem -> conv -> bn -> getitem]: the
    replacement convolution and batch norm carry the metadata of the
    matched convolution and batch norm, but the replacement getitem
    carries the metadata of the max-pool's getitem, the node bound to the
    pattern's input, not that of the matched getitem. *)
Theorem maxpool_getitem_meta_comes_from_input_getitem :
  find_replacement_nodes 25 maxpool_store maxpool_replaced = Ok (16, 19, 20)
  /\ (fun st' => (meta (st' 16), meta (st' 19), meta (st' 20)))
       <$> post_process_one 25 maxpool_store maxpool_replaced
     = Ok (meta (maxpool_store 4), meta (maxpool_store 9), meta (maxpool_store 2))
  /\ target (maxpool_store 10) = operator_getitem
  /\ (exists p, (p, Some 10) ∈ rp_nodes_map maxpool_replaced)
  /\ meta (maxpool_store 2) <> meta (maxpool_store 10).
Proof.
  split; [by vm_compute |]. split; [by vm_compute |].
  split; [done |]. split.
  - exists "getitem". apply list_elem_of_here.
  - intros Heq.
    apply (f_equal (fun m => annotations m !! "stack_trace")) in Heq.
    vm_compute in Heq. discriminate.
Qed.

(** ** The pattern library *)

(** C8. The result of [_fused_qat_conv2d_bn_pattern_no_conv_bias] is the
    same for any two values of [conv_bias], whatever the tensor operations
    do; run on the example inputs, it never reads [conv_bias] and performs
    no tensor addition. *)
Theorem no_conv_bias_pattern_ignores_bias :
  (forall (T : Type) (ops : TensorOps T)
          (x conv_weight bias1 bias2 bn_weight bn_bias rm rv : T),
      _fused_qat_conv2d_bn_pattern_no_conv_bias
        x conv_weight bias1 bn_weight bn_bias rm rv
      = _fused_qat_conv2d_bn_pattern_no_conv_bias
          x conv_weight bias2 bn_weight bn_bias rm rv)
  /\ exists e,
       call_pattern (fun T _ => _fused_qat_conv2d_bn_pattern_no_conv_bias)
         sym_example_inputs = Ok e
       /\ reads_input "conv_bias" e = false
       /\ count_adds e = 0.
Proof.
  split; [reflexivity |].
  eexists. split; [vm_compute; reflexivity |]. split; reflexivity.
Qed.

(** The with-bias pattern, by contrast, reads [conv_bias] and adds it. *)
Lemma conv_bias_pattern_uses_bias :
  exists e,
    call_pattern (fun T _ => _fused_qat_conv2d_bn_pattern) sym_example_inputs = Ok e
    /\ reads_input "conv_bias" e = true
    /\ count_adds e = 1.
Proof.
  eexists. split; [vm_compute; reflexivity |]. split; reflexivity.
Qed.

(** ** The scope map of [prepare_pt2e] *)

Lemma append_assoc (a b c : string) : (a +:+ b) +:+ c = a +:+ (b +:+ c).
Proof.
  induction a as [| ch a IH]; first done.
  change (String ch ((a +:+ b) +:+ c) = String ch (a +:+ (b +:+ c))).
  by f_equal.
Qed.

Lemma split_dot_nonempty s : split_dot s <> [].
Proof.
  destruct s as [| c s]; simpl; first done.
  case_decide; first done. by destruct (split_dot s).
Qed.

Lemma split_dot_pieces_have_no_dot s :
  Forall (fun piece => has_dot piece = false) (split_dot s).
Proof.
  induction s as [| c s IH]; simpl.
  - by repeat constructor.
  - case_decide as Hc; first by constructor.
    destruct (split_dot s) as [| piece pieces].
    + constructor; last done. simpl. by rewrite bool_decide_eq_false_2.
    + inversion_clear IH as [| ? ? Hpiece Hpieces]. constructor; last done.
      simpl. by rewrite bool_decide_eq_false_2.
Qed.

Lemma join_dot_cons_char c piece pieces :
  join_dot (String c piece :: pieces) = String c (join_dot (piece :: pieces)).
Proof. by destruct pieces. Qed.

(** Joining the pieces with dots gives the string back. *)
Lemma join_split_dot s : join_dot (split_dot s) = s.
Proof.
  induction s as [| c s IH]; simpl; first done.
  case_decide as Hc.
  - subst c. pose proof (split_dot_nonempty s) as Hne.
    destruct (split_dot s) as [| piece pieces]; first done.
    change (join_dot ("" :: piece :: pieces))
      with ("" +:+ "." +:+ join_dot (piece :: pieces)).
    by rewrite IH.
  - pose proof (split_dot_nonempty s) as Hne.
    destruct (split_dot s) as [| piece pieces]; first done.
    by rewrite join_dot_cons_char, IH.
Qed.

Lemma last_of_join pieces :
  pieces <> [] ->
  Forall (fun piece => has_dot piece = false) pieces ->
  last_component (join_dot pieces) (py_last "" pieces).
Proof.
  unfold py_last.
  induction pieces as [| p [| q rest] IH]; intros Hne Hdots; first done.
  - inversion_clear Hdots. split; [done | by left].
  - inversion_clear Hdots as [| ? ? _ Hrest].
    destruct IH as [Hno [Heq | [front Heq]]]; [done | done | |].
    + split; first done. right. exists p.
      change (join_dot (p :: q :: rest)) with (p +:+ "." +:+ join_dot (q :: rest)).
      by rewrite Heq.
    + split; first done. right. exists (p +:+ "." +:+ front).
      change (join_dot (p :: q :: rest)) with (p +:+ "." +:+ join_dot (q :: rest)).
      rewrite Heq. symmetry.
      exact (append_assoc p ("." +:+ front) ("." +:+ List.last (q :: rest) "")).
Qed.

(** [path.split(".")[-1]] is the last dot-separated component of [path]. *)
Lemma split_dot_last path : last_component path (py_last "" (split_dot path)).
Proof.
  rewrite <- (join_split_dot path) at 1.
  apply last_of_join; [apply split_dot_nonempty | apply split_dot_pieces_have_no_dot].
Qed.

(** The scope computed for a node is the one the specification names. *)
Lemma current_scope_rule n : scope_rule n (current_scope n).
Proof.
  unfold scope_rule, current_scope.
  destruct (nn_module_stack (meta n)) as [[| entry stack] |]; [done | | done].
  destruct (exists_last (l := entry :: stack)) as (front & [key [path ty]] & Heq);
    first done.
  exists front, key, path, ty. split; first done.
  unfold py_last. rewrite Heq, fmap_app. simpl. rewrite last_last. simpl.
  split; [apply split_dot_last | done].
Qed.

Lemma build_snoc nodes n :
  build_node_name_to_scope (nodes ++ [n])
  = <[ name n := current_scope n ]> (build_node_name_to_scope nodes).
Proof. unfold build_node_name_to_scope. by rewrite foldl_app. Qed.

Lemma build_lookup_inv nodes : forall k s,
  build_node_name_to_scope nodes !! k = Some s ->
  exists n, n ∈ nodes /\ name n = k /\ s = current_scope n.
Proof.
  induction nodes as [| x nodes IH] using rev_ind; intros k s.
  - unfold build_node_name_to_scope. simpl. by rewrite lookup_empty.
  - rewrite build_snoc. destruct (decide (name x = k)) as [<- | Hne].
    + rewrite lookup_insert_eq. intros [= <-]. exists x.
      split; [apply elem_of_app; right; apply list_elem_of_here | done].
    + rewrite lookup_insert_ne by done. intros (n & Hin & Hn)%IH.
      exists n. split; [apply elem_of_app; by left | done].
Qed.

Lemma build_lookup_is_Some nodes : forall n,
  n ∈ nodes -> is_Some (build_node_name_to_scope nodes !! name n).
Proof.
  induction nodes as [| x nodes IH] using rev_ind; intros n Hin.
  - by inversion Hin.
  - rewrite build_snoc. destruct (decide (name x = name n)) as [Heq | Hne].
    + rewrite Heq, lookup_insert_eq. by eexists.
    + rewrite lookup_insert_ne by done. apply IH.
      apply elem_of_app in Hin as [? | Hin]; first done.
      apply list_elem_of_singleton in Hin. by subst.
Qed.

Lemma build_lookup_unique nodes :
  NoDup (name <$> nodes) ->
  forall n, n ∈ nodes ->
            build_node_name_to_scope nodes !! name n = Some (current_scope n).
Proof.
  induction nodes as [| x nodes IH] using rev_ind; intros Hnd n Hin.
  - by inversion Hin.
  - rewrite fmap_app in Hnd. apply list.NoDup_app in Hnd as (Hnd & Hfresh & _).
    rewrite build_snoc. apply elem_of_app in Hin as [Hin | Hin].
    + rewrite lookup_insert_ne; first by apply IH.
      intros Heq. apply (Hfresh (name n)).
      * apply list_elem_of_fmap. by exists n.
      * rewrite <- Heq. simpl. apply list_elem_of_here.
    + apply list_elem_of_singleton in Hin. subst. by rewrite lookup_insert_eq.
Qed.

(** ** The calls [prepare_pt2e] makes *)

Section GlueProperties.
Context `{Stages}.
Implicit Types (model : QuantizePt2e.GraphModule) (q : QConfigMapping)
  (ex : ExampleInputs) (bc : BackendConfig).

(** The log of a run: the fusion call, then, as long as no stage raises,
    the prepare call and the observer rearrangement. *)
Lemma prepare_pt2e_log model q ex bc :
  (prepare_pt2e model q ex bc).1
  = call_fuse_conv_bn_ model ::
    match _fuse_conv_bn_ model with
    | Ok fused =>
        let scope := build_node_name_to_scope (graph_nodes model) in
        call_prepare fused q false scope ex bc ::
        match prepare fused q false scope ex bc with
        | Ok prepared =>
            [call_rearrange_weight_observer_for_decomposed_linear prepared]
        | _ => []
        end
    | _ => []
    end.
Proof.
  unfold prepare_pt2e, logged_bind, invoke, logged_ret.
  destruct (_fuse_conv_bn_ model) as [fused | |]; simpl; try done.
  destruct (prepare fused q false _ ex bc) as [prepared | |]; simpl; try done.
  by destruct (_rearrange_weight_observer_for_decomposed_linear prepared).
Qed.

(** C3, as the code has it.  [prepare_pt2e] first calls [_fuse_conv_bn_]
    on the model; the prepare stage is only called after it, on the model
    that call returns; [_fuse_conv_bn_qat] is not called at all. *)
Theorem fuse_conv_bn_precedes_prepare model q ex bc :
  let log := (prepare_pt2e model q ex bc).1 in
  log !! 0%nat = Some (call_fuse_conv_bn_ model)
  /\ (forall c, c ∈ log -> is_call_fuse_conv_bn_qat c = false)
  /\ (forall j p, log !! j = Some p -> is_call_prepare p = true ->
        0 < j
        /\ exists fused scope,
             _fuse_conv_bn_ model = Ok fused
             /\ p = call_prepare fused q false scope ex bc)
  /\ (forall fused, _fuse_conv_bn_ model = Ok fused ->
        exists p, log !! 1%nat = Some p /\ is_call_prepare p = true).
Proof.
  intros log. subst log. rewrite prepare_pt2e_log.
  split; [done | split; [| split]].
  - intros c Hc. apply elem_of_cons in Hc as [-> | Hc]; first done.
    destruct (_fuse_conv_bn_ model) as [fused | |]; try by inversion Hc.
    apply elem_of_cons in Hc as [-> | Hc]; first done.
    destruct (prepare fused q false _ ex bc); try by inversion Hc.
    apply list_elem_of_singleton in Hc. by subst.
  - intros j p Hj Hp. destruct j as [| j]; simpl in Hj.
    { injection Hj as <-. discriminate Hp. }
    split; first lia.
    destruct (_fuse_conv_bn_ model) as [fused | |]; try done.
    destruct j as [| j]; simpl in Hj.
    { injection Hj as <-. by eexists _, _. }
    destruct (prepare fused q false _ ex bc); try done.
    destruct j; simpl in Hj; try done. injection Hj as <-. discriminate Hp.
  - intros fused ->. simpl. by eexists.
Qed.

(** C10. Every call of the prepare stage that [prepare_pt2e] makes passes
    [False] as the QAT flag, and it makes exactly one such call once the
    fusion has returned. *)
Theorem prepare_is_never_qat model q ex bc :
  let log := (prepare_pt2e model q ex bc).1 in
  Forall (fun is_qat => is_qat = false) (prepare_is_qat_flags log)
  /\ (forall fused, _fuse_conv_bn_ model = Ok fused ->
        prepare_is_qat_flags log = [false]).
Proof.
  intros log. subst log. rewrite prepare_pt2e_log. unfold prepare_is_qat_flags.
  destruct (_fuse_conv_bn_ model) as [fused | |]; simpl.
  - destruct (prepare fused q false _ ex bc); simpl;
      (split; [by repeat constructor | by intros ? _]).
  - split; [constructor | done].
  - split; [constructor | done].
Qed.

(** C9. The scope map handed to the prepare stage is built from the
    model's nodes as they are on entry.  Each node records, under its
    name, the scope the specification names: for a non-empty module stack
    the last dot-separated component of the path of the stack's last entry
    together with that entry's type, otherwise the empty string and
    [NoneType].  The finished map has an entry for every node name, every
    entry is the scope of a node of that name, and with node names unique
    (as they are in a graph) the entry under a node's name is that node's
    scope. *)
Theorem node_name_to_scope_spec model q ex bc :
  let nodes := graph_nodes model in
  let scope := build_node_name_to_scope nodes in
  (forall fused, _fuse_conv_bn_ model = Ok fused ->
      call_prepare fused q false scope ex bc ∈ (prepare_pt2e model q ex bc).1)
  /\ (forall before n after, nodes = (before ++ n :: after)%list ->
        exists s, build_node_name_to_scope (before ++ [n]) !! name n = Some s
                  /\ scope_rule n s)
  /\ (forall n, n ∈ nodes -> is_Some (scope !! name n))
  /\ (forall k s, scope !! k = Some s ->
        exists n, n ∈ nodes /\ name n = k /\ scope_rule n s)
  /\ (NoDup (name <$> nodes) ->
      forall n, n ∈ nodes ->
                exists s, scope !! name n = Some s /\ scope_rule n s).
Proof.
  intros nodes scope. split; [| split; [| split; [| split]]].
  - intros fused Hfused. rewrite prepare_pt2e_log, Hfused.
    apply list_elem_of_further, list_elem_of_here.
  - intros before n after _. exists (current_scope n).
    rewrite build_snoc, lookup_insert_eq. split; [done | apply current_scope_rule].
  - apply build_lookup_is_Some.
  - intros k s (n & Hin & Hname & ->)%build_lookup_inv.
    exists n. split; [done | split; [done | apply current_scope_rule]].
  - intros Hnd n Hin. exists (current_scope n).
    split; [by apply build_lookup_unique | apply current_scope_rule].
Qed.

End GlueProperties.

(** C3, as stated, fails: in a run whose stages all return, the prepare
    stage is called and no call of [_fuse_conv_bn_qat] comes before it. *)
Lemma qat_fusion_not_called_before_prepare :
  let log := (prepare_pt2e (H := identity_stages) small_model tt tt tt).1 in
  (exists p, p ∈ log /\ is_call_prepare p = true)
  /\ ~ qat_fusion_precedes_prepare log.
Proof.
  split.
  - eexists. split; [apply list_elem_of_further, list_elem_of_here | done].
  - intros (i & j & c & p & _ & Hi & Hc & _).
    destruct i as [| [| [| i]]]; simpl in Hi; try done;
      injection Hi as <-; discriminate Hc.
Qed.

Lemma fuse_conv_bn_precedes_prepare_witness :
  exists p, (prepare_pt2e (H := identity_stages) small_model tt tt tt).1 !! 1%nat = Some p
            /\ is_call_prepare p = true.
Proof.
  exact (proj2 (proj2 (proj2
           (fuse_conv_bn_precedes_prepare (H := identity_stages) small_model tt tt tt)))
           small_model eq_refl).
Defined.

Lemma prepare_is_never_qat_witness :
  prepare_is_qat_flags (prepare_pt2e (H := identity_stages) small_model tt tt tt).1
  = [false].
Proof.
  exact (proj2 (prepare_is_never_qat (H := identity_stages) small_model tt tt tt)
           small_model eq_refl).
Defined.

(** The scope of the node inside [features.conv1] is
    [("conv1", torch.nn.Conv2d)]; the node with the empty stack gets
    [("", NoneType)]. *)
Lemma node_name_to_scope_spec_witness :
  exists s, build_node_name_to_scope (graph_nodes small_model)
              !! "convolution_default" = Some s
            /\ scope_rule conv1_node s.
Proof.
  apply (proj2 (proj2 (proj2 (proj2
           (node_name_to_scope_spec (H := identity_stages) small_model tt tt tt))))
           (NoDup_cons_2 "convolution_default" ["output"]
              (fun Hin => eq_ind "convolution_default"
                            (fun s => match s with
                                      | String "c" _ => True
                                      | _ => False
                                      end) I "output"
                            (proj1 (list_elem_of_singleton _ _) Hin))
              (NoDup_cons_2 "output" [] (not_elem_of_nil _) (NoDup_nil_2)))
           conv1_node).
  apply list_elem_of_here.
Defined.

Example small_model_scopes :
  build_node_name_to_scope (graph_nodes small_model)
  = <[ "output" := ("", NoneType) ]>
      (<[ "convolution_default" := ("conv1", ModuleClass "torch.nn.Conv2d") ]> ∅).
Proof. reflexivity. Qed.

(** * Further properties of the two files *)

(** ** What post-processing writes *)

Section Writes.
Variables c b g : node_id.
Hypothesis Hdistinct : NoDup [c; b; g].

Lemma distinct_three : c <> b /\ c <> g /\ b <> g.
Proof.
  rewrite !list.NoDup_cons in Hdistinct. rewrite !not_elem_of_cons in Hdistinct.
  intuition congruence.
Qed.

Lemma copy_step_writes st item :
  let st' := copy_step c b g st item in
  (forall i, name (st' i) = name (st i))
  /\ (forall i, i ∉ [c; b; g] -> st' i = st i)
  /\ args (st' b) = args (st b)
  /\ args (st' g) = args (st g)
  /\ (3 <= length (args (st c)) ->
      take 3 (args (st' c)) = take 3 (args (st c))
      /\ 3 <= length (args (st' c))).
Proof.
  destruct distinct_three as (? & ? & ?).
  destruct item as [p [o |]]; simpl; last by repeat split.
  unfold copy_step. simpl. unfold set_meta, set_args, insert, fn_insert.
  split; [| split; [| split; [| split]]].
  - intros i. repeat (case_decide; simplify_eq/=; try done).
  - intros i Hi. rewrite !not_elem_of_cons in Hi. destruct Hi as (? & ? & ? & _).
    repeat (case_decide; simplify_eq/=; try done).
  - repeat (case_decide; simplify_eq/=; try done).
  - repeat (case_decide; simplify_eq/=; try done).
  - intros Hlen.
    repeat (case_decide; simplify_eq/=; try done);
      (split; [rewrite take_app_le by (rewrite length_take; lia);
               rewrite take_take; by rewrite Nat.min_id
              | rewrite length_app, length_take; lia]).
Qed.

Lemma copy_loop_writes items : forall st,
  let st' := foldl (copy_step c b g) st items in
  (forall i, name (st' i) = name (st i))
  /\ (forall i, i ∉ [c; b; g] -> st' i = st i)
  /\ args (st' b) = args (st b)
  /\ args (st' g) = args (st g)
  /\ (3 <= length (args (st c)) ->
      take 3 (args (st' c)) = take 3 (args (st c))
      /\ 3 <= length (args (st' c))).
Proof.
  induction items as [| item items IH]; intros st; simpl; first by repeat split.
  destruct (copy_step_writes st item) as (Hn & Hf & Hb & Hg & Hc).
  destruct (IH (copy_step c b g st item)) as (IHn & IHf & IHb & IHg & IHc).
  split; [| split; [| split; [| split]]].
  - intros i. by rewrite IHn, Hn.
  - intros i Hi. by rewrite IHf, Hf.
  - by rewrite IHb, Hb.
  - by rewrite IHg, Hg.
  - intros Hlen. destruct (Hc Hlen) as [Ht Hl]. destruct (IHc Hl) as [IHt IHl].
    split; [by rewrite IHt, Ht | done].
Qed.

End Writes.

(** X2. Post-processing of one result writes the three replacement nodes only:
    every node keeps its name and target, and every other node is left as
    it was. *)
Theorem post_process_one_writes_three_nodes fuel st r st' c b g :
  find_replacement_nodes fuel st r = Ok (c, b, g) ->
  post_process_one fuel st r = Ok st' ->
  (forall i, name (st' i) = name (st i) /\ target (st' i) = target (st i))
  /\ (forall i, i ∉ [c; b; g] -> st' i = st i).
Proof.
  intros Hfind Hrun.
  destruct (find_replacement_nodes_targets _ _ _ _ _ _ Hfind) as (_ & _ & _ & Hnd).
  pose proof (fun i => post_process_one_target fuel st r st' i Hrun) as Htarget.
  unfold post_process_one in Hrun. rewrite Hfind in Hrun. simpl in Hrun.
  injection Hrun as <-.
  destruct (copy_loop_writes c b g Hnd (rp_nodes_map r) st) as (Hn & Hf & _).
  split; [intros i; split; [apply Hn | apply Htarget] | apply Hf].
Qed.

(** X3. Post-processing never copies the arguments of a batch norm or of a
    getitem, and never changes the input, weight and bias of the
    replacement convolution. *)
Theorem post_process_one_keeps_operands fuel st r st' c b g :
  find_replacement_nodes fuel st r = Ok (c, b, g) ->
  post_process_one fuel st r = Ok st' ->
  args (st' b) = args (st b)
  /\ args (st' g) = args (st g)
  /\ (3 <= length (args (st c)) ->
      take 3 (args (st' c)) = take 3 (args (st c))).
Proof.
  intros Hfind Hrun.
  destruct (find_replacement_nodes_targets _ _ _ _ _ _ Hfind) as (_ & _ & _ & Hnd).
  unfold post_process_one in Hrun. rewrite Hfind in Hrun. simpl in Hrun.
  injection Hrun as <-.
  destruct (copy_loop_writes c b g Hnd (rp_nodes_map r) st) as (_ & _ & Hb & Hg & Hc).
  split; [done | split; [done |]]. intros Hlen. by destruct (Hc Hlen).
Qed.

(** X4. When the search for the replacement nodes succeeds, the result has
    exactly one replacement node, that node is the getitem returned, and
    the three nodes returned have the convolution, batch-norm and getitem
    targets: they are three different nodes. *)
Theorem find_replacement_nodes_sound fuel st r c b g :
  find_replacement_nodes fuel st r = Ok (c, b, g) ->
  replacements r = [g]
  /\ target (st c) = aten_convolution_default
  /\ target (st b) = aten_native_batch_norm_legit_default
  /\ target (st g) = operator_getitem
  /\ c <> b /\ c <> g /\ b <> g.
Proof.
  intros Hfind.
  destruct (find_replacement_nodes_targets _ _ _ _ _ _ Hfind) as (Hc & Hb & Hg & _).
  split; [| repeat split; try done; congruence].
  unfold find_replacement_nodes in Hfind.
  destruct (bool_decide (length (replacements r) = 1%nat)) eqn:Hlen;
    simpl in Hfind; last done.
  apply bool_decide_eq_true in Hlen.
  destruct (replacements r) as [| g' [| ? ?]]; simpl in *; try done.
  destruct (py_assert _ _); simpl in Hfind; try done.
  destruct (climb fuel st g' None None) as [[c' b'] | |]; simpl in Hfind; try done.
  by injection Hfind as <- <- <-.
Qed.

(** ** Exceptions of the match filters *)

Section FilterErrors.
Context {Graph : Type}.

(** X7. A [None] entry met before any convolution node makes both filters
    raise [AttributeError]; a convolution node with fewer than three
    arguments makes both raise [IndexError]. *)
Theorem filters_raise_on_malformed_match (st : Store) (m : InternalMatch)
    (g1 g2 : Graph) :
  (forall pre p post,
      nodes_map m = (pre ++ (p, None) :: post)%list ->
      lacks st aten_convolution_default pre ->
      Forall (fun e => is_Some e.2) pre ->
      _has_conv_bias_filter st m g1 g2 = Raise AttributeError
      /\ _no_conv_bias_filter st m g1 g2 = Raise AttributeError)
  /\ (forall c,
        scan_finds st (nodes_map m) c ->
        length (args (st c)) < 3 ->
        _has_conv_bias_filter st m g1 g2 = Raise IndexError
        /\ _no_conv_bias_filter st m g1 g2 = Raise IndexError).
Proof.
  unfold _no_conv_bias_filter, _has_conv_bias_filter. split.
  - intros pre p post -> Hlacks Hsome.
    assert (has_conv_bias_scan st (pre ++ (p, None) :: post)%list
            = Raise AttributeError) as ->; last done.
    induction pre as [| [q [n |]] pre IH]; simpl; first done.
    + inversion_clear Hlacks as [| ? ? Hn Hl]. inversion_clear Hsome.
      rewrite decide_False by (by apply Hn). by apply IH.
    + inversion_clear Hsome as [| ? ? [? Hq] _]. discriminate Hq.
  - intros c Hscan Hlen.
    assert (has_conv_bias_scan st (nodes_map m) = Raise IndexError) as ->; last done.
    induction Hscan as [p c rest Hc | p n rest c Hn _ IH]; simpl.
    + rewrite decide_True by done.
      by rewrite (lookup_ge_None_2 (args (st c)) 2) by lia.
    + rewrite decide_False by done. by apply IH.
Qed.

End FilterErrors.

(** ** The fused patterns *)

(** X8. A convolution weight with fewer than two dimensions makes both fused
    patterns fail: once the scale factor is computed, [weight_shape[0] =
    -1] or [bias_shape[1] = -1] raises [IndexError], before any
    convolution is run. *)
Theorem fused_patterns_need_two_weight_dims
    (T : Type) (ops : TensorOps T)
    (x conv_weight conv_bias bn_weight bn_bias rm rv : T) :
  length (t_shape conv_weight) < 2 ->
  (forall e,
      _fused_qat_conv2d_bn_pattern x conv_weight conv_bias bn_weight bn_bias rm rv
      <> Ok e
      /\ _fused_qat_conv2d_bn_pattern_no_conv_bias
           x conv_weight conv_bias bn_weight bn_bias rm rv <> Ok e)
  /\ (forall v std s,
        t_add_scalar rv bn_eps = Ok v -> torch_sqrt v = Ok std ->
        t_div bn_weight std = Ok s ->
        _fused_qat_conv2d_bn_pattern x conv_weight conv_bias bn_weight bn_bias rm rv
        = Raise IndexError
        /\ _fused_qat_conv2d_bn_pattern_no_conv_bias
             x conv_weight conv_bias bn_weight bn_bias rm rv = Raise IndexError).
Proof.
  intros Hrank.
  unfold _fused_qat_conv2d_bn_pattern, _fused_qat_conv2d_bn_pattern_no_conv_bias.
  split.
  - intros e.
    destruct (t_add_scalar rv bn_eps) as [v | |]; simpl; [| done..].
    destruct (torch_sqrt v) as [std | |]; simpl; [| done..].
    destruct (t_div bn_weight std) as [s | |]; simpl; [| done..].
    unfold py_list_set. rewrite !length_replicate.
    destruct (t_shape conv_weight) as [| d [| d' rest]]; simpl in *; try lia; done.
  - intros v std s -> Hstd Hs. simpl. rewrite Hstd. simpl. rewrite Hs. simpl.
    unfold py_list_set. rewrite !length_replicate.
    destruct (t_shape conv_weight) as [| d [| d' rest]]; simpl in *; try lia; done.
Qed.

(** X9. With a weight of two dimensions or more, the computation each pattern
    records runs from the batch norm straight down to the convolution:
    through the bias addition and the division by the scale in the pattern
    with bias, through the division alone in the pattern without, and
    directly in the unfused pattern.  Each step takes the running value as
    its first operand. *)
Theorem pattern_spines (x conv_weight conv_bias bn_weight bn_bias rm rv : Sym) :
  2 <= length (sym_shape conv_weight) ->
  spine <$> _conv2d_bn_pattern x conv_weight conv_bias bn_weight bn_bias rm rv
  = Ok ("batch_norm" :: "conv2d" :: spine x)
  /\ spine <$> _fused_qat_conv2d_bn_pattern
                 x conv_weight conv_bias bn_weight bn_bias rm rv
     = Ok ("batch_norm" :: "add" :: "div" :: "conv2d" :: spine x)
  /\ spine <$> _fused_qat_conv2d_bn_pattern_no_conv_bias
                 x conv_weight conv_bias bn_weight bn_bias rm rv
     = Ok ("batch_norm" :: "div" :: "conv2d" :: spine x).
Proof.
  intros Hrank. split; first done.
  unfold _fused_qat_conv2d_bn_pattern, _fused_qat_conv2d_bn_pattern_no_conv_bias.
  simpl. unfold py_list_set. rewrite !length_replicate.
  rewrite !decide_True by lia. done.
Qed.

(** X10. What each fused pattern reads of its inputs: the pattern with bias
    reads all seven, the pattern without bias reads the other six and
    nothing of [conv_bias]. *)
Theorem fused_patterns_read (v : string)
    (x conv_weight conv_bias bn_weight bn_bias rm rv : Sym) :
  2 <= length (sym_shape conv_weight) ->
  reads_input v <$> _fused_qat_conv2d_bn_pattern_no_conv_bias
                      x conv_weight conv_bias bn_weight bn_bias rm rv
  = Ok (reads_input v x || reads_input v conv_weight || reads_input v bn_weight
        || reads_input v bn_bias || reads_input v rm || reads_input v rv)
  /\ reads_input v <$> _fused_qat_conv2d_bn_pattern
                         x conv_weight conv_bias bn_weight bn_bias rm rv
     = Ok (reads_input v x || reads_input v conv_weight || reads_input v conv_bias
           || reads_input v bn_weight || reads_input v bn_bias
           || reads_input v rm || reads_input v rv).
Proof.
  intros Hrank.
  unfold _fused_qat_conv2d_bn_pattern, _fused_qat_conv2d_bn_pattern_no_conv_bias.
  simpl. unfold py_list_set. rewrite !length_replicate.
  rewrite !decide_True by lia. simpl.
  split; f_equal;
    destruct (reads_input v x), (reads_input v conv_weight), (reads_input v conv_bias),
      (reads_input v bn_weight), (reads_input v bn_bias), (reads_input v rm),
      (reads_input v rv); reflexivity.
Qed.

(** ** The searches of different results do not interfere *)

Lemma climb_ext st1 st2 :
  (forall i, target (st1 i) = target (st2 i)) ->
  (forall i, args (st1 i) !! 0%nat = args (st2 i) !! 0%nat) ->
  forall fuel n co bo, climb fuel st1 n co bo = climb fuel st2 n co bo.
Proof.
  intros Ht Ha. induction fuel as [| fuel IH]; intros n co bo; first done.
  simpl. rewrite Ht, Ha.
  destruct co, bo; try done; destruct (args (st2 n) !! 0%nat) as [[] |]; auto.
Qed.

Lemma find_replacement_nodes_ext st1 st2 fuel r :
  (forall i, target (st1 i) = target (st2 i)) ->
  (forall i, args (st1 i) !! 0%nat = args (st2 i) !! 0%nat) ->
  find_replacement_nodes fuel st1 r = find_replacement_nodes fuel st2 r.
Proof.
  intros Ht Ha. unfold find_replacement_nodes.
  destruct (py_assert (bool_decide (length (replacements r) = 1%nat)) _); try done.
  simpl. destruct (replacements r) as [| g rest]; first done.
  by rewrite Ht, (climb_ext st1 st2 Ht Ha).
Qed.

(** The convolution node the walk returns was walked through: it has a
    first argument. *)
Lemma climb_conv_has_first_arg st : forall fuel n co bo c b,
  (forall c', co = Some c' -> is_Some (args (st c') !! 0%nat)) ->
  climb fuel st n co bo = Ok (c, b) ->
  is_Some (args (st c) !! 0%nat).
Proof.
  induction fuel as [| fuel IH]; intros n co bo c b Hco Hrun.
  - destruct co, bo; try done. rewrite climb_done in Hrun.
    injection Hrun as <- <-. by apply Hco.
  - destruct (decide (is_Some co /\ is_Some bo)) as [[[c' ->] [b' ->]] | Hnot].
    { rewrite climb_done in Hrun. injection Hrun as <- <-. by apply Hco. }
    destruct (args (st n) !! 0%nat) as [a |] eqn:Harg.
    + destruct (isinstance_Node a) eqn:Ha.
      * destruct a as [n' | | | | |]; try done.
        rewrite (climb_step _ _ _ _ _ _ Hnot Harg) in Hrun.
        apply IH in Hrun; first done.
        unfold conv_seen. intros c'. case_decide; last by apply Hco.
        intros [= <-]. by rewrite Harg.
      * by rewrite (climb_stop _ _ _ _ _ _ Hnot Harg Ha) in Hrun.
    + destruct co, bo; try (exfalso; apply Hnot; by split);
        simpl in Hrun; rewrite Harg in Hrun; done.
Qed.

Lemma copy_step_first_arg c b g st item :
  c <> b -> c <> g -> is_Some (args (st c) !! 0%nat) ->
  forall i, args (copy_step c b g st item i) !! 0%nat = args (st i) !! 0%nat.
Proof.
  intros Hcb Hcg [a Ha] i.
  destruct item as [p [o |]]; last done.
  unfold copy_step. simpl. unfold set_meta, set_args, insert, fn_insert.
  repeat (case_decide; simplify_eq/=; try done);
    (rewrite lookup_app_l by
       (rewrite length_take; apply lookup_lt_Some in Ha; lia);
     by rewrite lookup_take_lt by lia).
Qed.

Lemma copy_loop_first_arg c b g items : forall st,
  c <> b -> c <> g -> is_Some (args (st c) !! 0%nat) ->
  forall i, args (foldl (copy_step c b g) st items i) !! 0%nat = args (st i) !! 0%nat.
Proof.
  induction items as [| item items IH]; intros st Hcb Hcg Hc i; simpl; first done.
  rewrite IH; [by apply copy_step_first_arg | done | done |].
  by rewrite copy_step_first_arg.
Qed.

(** Post-processing keeps every node's first argument, hence every
    search. *)
Lemma post_process_one_same_searches fuel st r st' :
  post_process_one fuel st r = Ok st' ->
  (forall i, args (st' i) !! 0%nat = args (st i) !! 0%nat)
  /\ forall fuel' r',
       find_replacement_nodes fuel' st' r' = find_replacement_nodes fuel' st r'.
Proof.
  intros Hrun.
  assert (Hfirst : forall i, args (st' i) !! 0%nat = args (st i) !! 0%nat).
  { unfold post_process_one in Hrun.
    destruct (find_replacement_nodes fuel st r) as [[[c b] g] | |] eqn:Hfind;
      simpl in Hrun; try done.
    injection Hrun as <-.
    destruct (find_replacement_nodes_targets _ _ _ _ _ _ Hfind) as (Hc & Hb & Hg & _).
    apply copy_loop_first_arg; [congruence | congruence |].
    unfold find_replacement_nodes in Hfind.
    destruct (py_assert _ _); simpl in Hfind; try done.
    destruct (replacements r) as [| g' rest]; first done.
    destruct (py_assert _ _); simpl in Hfind; try done.
    destruct (climb fuel st g' None None) as [[c' b'] | |] eqn:Hclimb;
      simpl in Hfind; try done.
    injection Hfind as -> -> ->.
    by apply (climb_conv_has_first_arg st fuel g None None c b). }
  split; first done. intros fuel' r'.
  apply find_replacement_nodes_ext; [| done].
  intros i. by apply (post_process_one_target fuel st r).
Qed.

(** X5. Post-processing one result changes nothing of what the search for the
    replacement nodes of any result reads: every node keeps its first
    argument, and the searches give the same answers before and after. *)
Theorem post_process_one_keeps_searches fuel st r st' :
  post_process_one fuel st r = Ok st' ->
  (forall i, args (st' i) !! 0%nat = args (st i) !! 0%nat)
  /\ forall fuel' r',
       find_replacement_nodes fuel' st' r' = find_replacement_nodes fuel' st r'.
Proof. apply post_process_one_same_searches. Qed.

(** ** More on the scope map *)

Lemma build_app_lookup nodes later k :
  k ∉ (name <$> later) ->
  build_node_name_to_scope (nodes ++ later) !! k
  = build_node_name_to_scope nodes !! k.
Proof.
  induction later as [| n later IH] using rev_ind; intros Hk.
  - by rewrite app_nil_r.
  - rewrite fmap_app, not_elem_of_app in Hk. destruct Hk as [Hk Hn].
    rewrite app_assoc, build_snoc, lookup_insert_ne; first by apply IH.
    intros Heq. apply Hn. simpl. rewrite Heq. apply list_elem_of_here.
Qed.

(** X11. When several nodes carry one name, the entry under that name is the
    scope of the last of them. *)
Theorem node_name_to_scope_last_wins (nodes before after : list Node) (n : Node) :
  nodes = (before ++ n :: after)%list ->
  name n ∉ (name <$> after) ->
  build_node_name_to_scope nodes !! name n = Some (current_scope n).
Proof.
  intros -> Hlast.
  change (before ++ n :: after)%list with (before ++ [n] ++ after)%list.
  rewrite app_assoc, build_app_lookup by done.
  by rewrite build_snoc, lookup_insert_eq.
Qed.

(** ** Failures of the stages of [prepare_pt2e] *)

Section GlueFailures.
Context `{Stages}.

(** X13. [prepare_pt2e] stops at the first stage that raises and raises the
    same exception, without calling the stages after it; when no stage
    raises it returns what the observer rearrangement returns. *)
Theorem prepare_pt2e_stops_at_first_failure
    (model : QuantizePt2e.GraphModule) (q : QConfigMapping)
    (ex : ExampleInputs) (bc : BackendConfig) :
  let scope := build_node_name_to_scope (graph_nodes model) in
  (forall e, _fuse_conv_bn_ model = Raise e ->
      prepare_pt2e model q ex bc = ([call_fuse_conv_bn_ model], Raise e))
  /\ (forall fused e,
        _fuse_conv_bn_ model = Ok fused ->
        prepare fused q false scope ex bc = Raise e ->
        prepare_pt2e model q ex bc
        = ([call_fuse_conv_bn_ model; call_prepare fused q false scope ex bc],
           Raise e))
  /\ (forall fused prepared,
        _fuse_conv_bn_ model = Ok fused ->
        prepare fused q false scope ex bc = Ok prepared ->
        prepare_pt2e model q ex bc
        = ([call_fuse_conv_bn_ model; call_prepare fused q false scope ex bc;
            call_rearrange_weight_observer_for_decomposed_linear prepared],
           _rearrange_weight_observer_for_decomposed_linear prepared)).
Proof.
  intros scope. subst scope. unfold prepare_pt2e, logged_bind, invoke, logged_ret.
  split; [| split].
  - by intros e ->.
  - intros fused e -> Hp. simpl. by rewrite Hp.
  - intros fused prepared -> Hp. simpl. rewrite Hp. simpl.
    by destruct (_rearrange_weight_observer_for_decomposed_linear prepared).
Qed.

End GlueFailures.

(** ** The scope name computed from a path *)

Lemma split_dot_without_dot c : has_dot c = false -> split_dot c = [c].
Proof.
  induction c as [| ch c IH]; simpl; first done.
  intros [Hch Hc]%orb_false_elim. apply bool_decide_eq_false in Hch.
  rewrite decide_False by done. by rewrite IH.
Qed.

Lemma split_dot_at_dot a c :
  split_dot (a +:+ "." +:+ c) = (split_dot a ++ split_dot c)%list.
Proof.
  induction a as [| ch a IH].
  - done.
  - change (String ch a +:+ "." +:+ c) with (String ch (a +:+ "." +:+ c)).
    simpl. rewrite IH. case_decide; first done.
    pose proof (split_dot_nonempty a). by destruct (split_dot a).
Qed.

(** X12. The scope recorded for a node whose innermost module has path
    [front.c], with no dot in [c], is [(c, type)]; a path without any dot
    is recorded whole, so a node of the root module (path [""]) gets the
    empty name with the root module's type. *)
Theorem current_scope_of_path (n : Node) (outer : ModuleStack)
    (key path c : string) (ty : PyType) :
  nn_module_stack (meta n) = Some (outer ++ [(key, (path, ty))])%list ->
  has_dot c = false ->
  (path = c \/ exists front, path = front +:+ "." +:+ c) ->
  current_scope n = (c, ty).
Proof.
  intros Hstack Hc Hpath. unfold current_scope. rewrite Hstack.
  destruct (outer ++ [(key, (path, ty))])%list as [| e l] eqn:Heq.
  { by destruct outer. }
  rewrite <- Heq. unfold py_last. rewrite fmap_app. simpl. rewrite last_last. simpl.
  f_equal. destruct Hpath as [-> | [front ->]].
  - by rewrite split_dot_without_dot.
  - rewrite split_dot_at_dot, (split_dot_without_dot c) by done.
    by rewrite last_last.
Qed.

(** ** All results together *)

(** X6. When the loop over all results completes, each result's search for
    its replacement nodes already succeeds on the store the loop starts
    from, with the nodes it finds on the store the loop ends with: no
    earlier iteration of the loop decides what a later one finds. *)
Theorem post_process_searches_hold_initially fuel rs : forall st st',
  post_process fuel rs st = Ok st' ->
  forall r, r ∈ rs ->
    exists c b g,
      find_replacement_nodes fuel st r = Ok (c, b, g)
      /\ find_replacement_nodes fuel st' r = Ok (c, b, g).
Proof.
  induction rs as [| r0 rs IH]; intros st st' Hrun r Hin; first by inversion Hin.
  simpl in Hrun.
  destruct (post_process_one fuel st r0) as [st1 | |] eqn:Hone; simpl in Hrun; try done.
  destruct (post_process_one_same_searches _ _ _ _ Hone) as [_ Hsame1].
  assert (Hlater : forall r', find_replacement_nodes fuel st' r'
                              = find_replacement_nodes fuel st1 r').
  { clear -Hrun. revert st1 Hrun.
    induction rs as [| r1 rs IHrs]; intros st1 Hrun r'; simpl in Hrun.
    - by injection Hrun as <-.
    - destruct (post_process_one fuel st1 r1) as [st2 | |] eqn:Hone;
        simpl in Hrun; try done.
      rewrite (IHrs _ Hrun).
      by destruct (post_process_one_same_searches _ _ _ _ Hone) as [_ ->]. }
  apply elem_of_cons in Hin as [-> | Hin].
  - unfold post_process_one in Hone.
    destruct (find_replacement_nodes fuel st r0) as [[[c b] g] | |] eqn:Hfind;
      simpl in Hone; try done.
    exists c, b, g. split; first done. by rewrite Hlater, Hsame1.
  - destruct (IH st1 st' Hrun r Hin) as (c & b & g & Hf1 & Hf').
    exists c, b, g. split; last done. by rewrite <- Hsame1.
Qed.

(** ** The further properties on the concrete graphs *)

Lemma maxpool_apart : apart 16 19 20 (rp_nodes_map maxpool_replaced).
Proof.
  unfold apart, maxpool_replaced; simpl.
  repeat (constructor;
          [ first [ intros ? [= <-]; rewrite !not_elem_of_cons;
                    repeat split; [lia.. | apply not_elem_of_nil]
                  | by intros ? [=] ] | ]).
  constructor.
Qed.

(** The matched convolution is the last (and only) original with the
    convolution target in the max-pool graph. *)
Lemma post_process_one_last_wins_witness :
  exists st',
    post_process_one 25 maxpool_store maxpool_replaced = Ok st'
    /\ meta (st' 16) = meta (maxpool_store 4)
    /\ args (st' 16)
       = (take 3 (args (maxpool_store 16)) ++ drop 3 (args (maxpool_store 4)))%list.
Proof.
  destruct (post_process_one_last_wins 25 maxpool_store maxpool_replaced 16 19 20
              (take 2 (rp_nodes_map maxpool_replaced)) "convolution_default" 4
              (drop 3 (rp_nodes_map maxpool_replaced)))
    as (st' & Hrun & Hconv & _);
    [vm_compute; reflexivity | reflexivity | exact maxpool_apart |].
  exists st'. split; [exact Hrun |].
  destruct Hconv as [Hmeta Hargs]; [reflexivity | |].
  - unfold lacks; simpl.
    repeat (constructor; [first [by intros ? [= <-] | by intros ? [=]] |]).
    constructor.
  - split; [exact Hmeta | apply Hargs; simpl; lia].
Defined.

Lemma post_process_one_writes_three_nodes_witness :
  let st' := foldl (copy_step 16 19 20) maxpool_store (rp_nodes_map maxpool_replaced) in
  st' 2 = maxpool_store 2 /\ target (st' 20) = target (maxpool_store 20).
Proof.
  intros st'.
  destruct (post_process_one_writes_three_nodes 25 maxpool_store maxpool_replaced
              st' 16 19 20) as [Hsame Hframe];
    [vm_compute; reflexivity | reflexivity |].
  split; [apply Hframe | apply Hsame].
  rewrite !not_elem_of_cons. repeat split; [lia.. | apply not_elem_of_nil].
Defined.

Lemma post_process_one_keeps_operands_witness :
  let st' := foldl (copy_step 16 19 20) maxpool_store (rp_nodes_map maxpool_replaced) in
  args (st' 19) = args (maxpool_store 19)
  /\ take 3 (args (st' 16)) = take 3 (args (maxpool_store 16)).
Proof.
  intros st'.
  destruct (post_process_one_keeps_operands 25 maxpool_store maxpool_replaced
              st' 16 19 20) as (Hb & _ & Hc);
    [vm_compute; reflexivity | reflexivity |].
  split; [exact Hb | apply Hc; simpl; lia].
Defined.

Lemma find_replacement_nodes_sound_witness :
  replacements separable_replaced = [24]
  /\ target (separable_store 18) = aten_convolution_default.
Proof.
  destruct (find_replacement_nodes_sound 25 separable_store separable_replaced 18 23 24)
    as (Hr & Hc & _); [vm_compute; reflexivity |].
  split; [exact Hr | exact Hc].
Defined.

Lemma post_process_one_keeps_searches_witness :
  let st' := foldl (copy_step 18 23 24) separable_store
               (rp_nodes_map separable_replaced) in
  find_replacement_nodes 25 st' separable_replaced
  = find_replacement_nodes 25 separable_store separable_replaced.
Proof.
  intros st'.
  apply (post_process_one_keeps_searches 25 separable_store separable_replaced st').
  reflexivity.
Defined.

(** Two results in one loop: the second block's search, run after the
    first block's iteration has written its three nodes, finds on the
    untouched store what it finds at the end. *)
Lemma post_process_searches_hold_initially_witness :
  let st1 := foldl (copy_step 16 21 22) two_block_store
               (rp_nodes_map first_block_replaced) in
  let st' := foldl (copy_step 36 39 40) st1 (rp_nodes_map second_block_replaced) in
  post_process 41 [first_block_replaced; second_block_replaced] two_block_store
  = Ok st'
  /\ exists c b g,
       find_replacement_nodes 41 two_block_store second_block_replaced = Ok (c, b, g)
       /\ find_replacement_nodes 41 st' second_block_replaced = Ok (c, b, g).
Proof.
  intros st1 st'.
  assert (Hrun : post_process 41 [first_block_replaced; second_block_replaced]
                   two_block_store = Ok st') by reflexivity.
  split; [exact Hrun |].
  apply (post_process_searches_hold_initially 41
           [first_block_replaced; second_block_replaced] two_block_store st' Hrun).
  apply list_elem_of_further, list_elem_of_here.
Defined.

(** In that loop the second iteration reads what the first one wrote: the
    second replacement's getitem ends with the metadata the first
    iteration copied onto the first replacement's getitem. *)
Example two_block_second_reads_first :
  (fun st' => (meta (st' 22), meta (st' 40)))
    <$> post_process 41 [first_block_replaced; second_block_replaced] two_block_store
  = Ok (meta (two_block_store 9), meta (two_block_store 9)).
Proof. by vm_compute. Qed.

Lemma filters_raise_on_malformed_match_witness :
  _has_conv_bias_filter maxpool_store bias_first_match tt tt = Raise AttributeError
  /\ _no_conv_bias_filter maxpool_store bias_first_match tt tt = Raise AttributeError.
Proof.
  apply (proj1 (filters_raise_on_malformed_match maxpool_store bias_first_match tt tt)
           [] "arg2_1" [("convolution_default", Some 4)]).
  - reflexivity.
  - constructor.
  - constructor.
Defined.

Lemma fused_patterns_need_two_weight_dims_witness :
  _fused_qat_conv2d_bn_pattern
    (SInput "x" [1; 1; 3; 3]%Z "float32") (SInput "conv_weight" [1]%Z "float32")
    (SInput "conv_bias" [1]%Z "float32") (SInput "bn_weight" [1]%Z "float32")
    (SInput "bn_bias" [1]%Z "float32") (SInput "bn_running_mean" [1]%Z "float32")
    (SInput "bn_running_var" [1]%Z "float32")
  = Raise IndexError.
Proof.
  refine (proj1 (proj2 (fused_patterns_need_two_weight_dims Sym Sym_ops
           (SInput "x" [1; 1; 3; 3]%Z "float32") (SInput "conv_weight" [1]%Z "float32")
           (SInput "conv_bias" [1]%Z "float32") (SInput "bn_weight" [1]%Z "float32")
           (SInput "bn_bias" [1]%Z "float32") (SInput "bn_running_mean" [1]%Z "float32")
           (SInput "bn_running_var" [1]%Z "float32") _) _ _ _ eq_refl eq_refl eq_refl)).
  simpl. lia.
Defined.

Lemma pattern_spines_witness :
  spine <$> call_pattern (fun T _ => _fused_qat_conv2d_bn_pattern) sym_example_inputs
  = Ok ["batch_norm"; "add"; "div"; "conv2d"; "x"].
Proof.
  refine (proj1 (proj2 (pattern_spines
           (SInput "x" [1; 1; 3; 3]%Z "float32")
           (SInput "conv_weight" [1; 1; 1; 1]%Z "float32")
           (SInput "conv_bias" [1]%Z "float32") (SInput "bn_weight" [1]%Z "float32")
           (SInput "bn_bias" [1]%Z "float32") (SInput "bn_running_mean" [1]%Z "float32")
           (SInput "bn_running_var" [1]%Z "float32") _))).
  simpl. lia.
Defined.

Lemma fused_patterns_read_witness :
  reads_input "conv_bias"
    <$> call_pattern (fun T _ => _fused_qat_conv2d_bn_pattern_no_conv_bias)
          sym_example_inputs
  = Ok false.
Proof.
  refine (proj1 (fused_patterns_read "conv_bias"
           (SInput "x" [1; 1; 3; 3]%Z "float32")
           (SInput "conv_weight" [1; 1; 1; 1]%Z "float32")
           (SInput "conv_bias" [1]%Z "float32") (SInput "bn_weight" [1]%Z "float32")
           (SInput "bn_bias" [1]%Z "float32") (SInput "bn_running_mean" [1]%Z "float32")
           (SInput "bn_running_var" [1]%Z "float32") _)).
  simpl. lia.
Defined.

(** Two nodes named alike: the entry is the scope of the second. *)
Lemma node_name_to_scope_last_wins_witness :
  build_node_name_to_scope
    [conv1_node; mkNode "convolution_default" aten_convolution_default [] no_meta]
    !! "convolution_default"
  = Some ("", NoneType).
Proof.
  apply (node_name_to_scope_last_wins
           [conv1_node; mkNode "convolution_default" aten_convolution_default [] no_meta]
           [conv1_node] []
           (mkNode "convolution_default" aten_convolution_default [] no_meta)).
  - reflexivity.
  - apply not_elem_of_nil.
Defined.

Lemma current_scope_of_path_witness :
  current_scope conv1_node = ("conv1", ModuleClass "torch.nn.Conv2d").
Proof.
  apply (current_scope_of_path conv1_node [("L__self__", ("", ModuleClass "Net"))]
           "L__self___features_conv1" "features.conv1" "conv1"
           (ModuleClass "torch.nn.Conv2d")).
  - reflexivity.
  - reflexivity.
  - right. exists "features". reflexivity.
Defined.

Lemma prepare_pt2e_stops_at_first_failure_witness :
  prepare_pt2e (H := rejecting_stages) small_model tt tt tt
  = ([call_fuse_conv_bn_ (H := rejecting_stages) small_model;
      call_prepare (H := rejecting_stages) small_model tt false
        (build_node_name_to_scope (graph_nodes small_model)) tt tt],
     Raise (ValueError "unsupported qconfig")).
Proof.
  apply (proj1 (proj2 (prepare_pt2e_stops_at_first_failure (H := rejecting_stages)
                         small_model tt tt tt))).
  - reflexivity.
  - reflexivity.
Defined.
